(** * Calculator engine: tokenizer, recursive-descent parser, evaluator

    A shallow embedding of [calculator-engine.ts]: [tokenize],
    the class [ExpressionParser], [evaluateNode], [evaluate],
    [isValidExpression] and [formatNumber], together with the parts of the
    JavaScript run time they call ([parseFloat], [Math.round], [isFinite],
    number-to-string conversion, the regular expressions [\s], [\d]).

    JavaScript numbers are IEEE 754 binary64 values; they are modelled by
    [spec_float] with precision 53 and maximal exponent 1024, whose
    operations round to nearest, ties to even. *)

From Stdlib Require Import ZArith List String Ascii Bool Lia PeanoNat.
From Stdlib Require Import SpecFloat DecimalString DecimalPos.
From Stdlib Require DecimalFacts.
Import ListNotations.

Local Open Scope string_scope.

(** ** Outcomes

    A JavaScript call either returns a value or throws [new Error(message)].
    Loops and recursive calls of the source are embedded with a fuel
    argument; [OutOfFuel] is the third outcome, shown below never to occur
    with the fuel the entry points supply. *)

Inductive outcome (A : Type) : Type :=
| Ok (a : A)
| Throw (message : string)
| OutOfFuel.

Arguments Ok {A} a.
Arguments Throw {A} message.
Arguments OutOfFuel {A}.

Definition bind {A B : Type} (m : outcome A) (k : A -> outcome B) : outcome B :=
  match m with
  | Ok a => k a
  | Throw message => Throw message
  | OutOfFuel => OutOfFuel
  end.

Notation "x <- m ;; k" := (bind m (fun x => k))
  (at level 61, m at next level, right associativity).
Notation "' pat <- m ;; k" := (bind m (fun x => match x with pat => k end))
  (at level 61, pat pattern, m at next level, right associativity).

(** ** JavaScript numbers *)

Module JSNumber.

Definition prec : Z := 53.
Definition emax : Z := 1024.

Definition number : Type := spec_float.

Definition NaN : number := S754_nan.

Definition add : number -> number -> number := SFadd prec emax.
Definition sub : number -> number -> number := SFsub prec emax.
Definition mul : number -> number -> number := SFmul prec emax.
Definition div : number -> number -> number := SFdiv prec emax.
Definition neg : number -> number := SFopp.

(** [a === b] on numbers: [NaN] differs from itself, [-0 === 0]. *)
Definition strictEq : number -> number -> bool := SFeqb.

Definition isNaN (x : number) : bool :=
  match x with S754_nan => true | _ => false end.

Definition isFinite (x : number) : bool :=
  match x with
  | S754_zero _ | S754_finite _ _ _ => true
  | S754_infinity _ | S754_nan => false
  end.

(** The number nearest to the integer [z]. *)
Definition ofZ (z : Z) : number := binary_normalize prec emax z 0 false.

(** The number nearest to the non-negative rational [p / q] ([0 < q]):
    the quotient is taken on the exact integers and rounded once. *)
Definition ofRatio (p q : Z) : number :=
  match p, q with
  | Zpos p', Zpos q' => div (S754_finite false p' 0) (S754_finite false q' 0)
  | Z0, Zpos _ => S754_zero false
  | _, _ => NaN
  end.

(** [Math.pow(10, n)] for an integer [n]: the number nearest to [10^n].
    [Math.pow] is implementation-approximated; the powers [10^0] to
    [10^22] are numbers themselves, among them the [10^10] of the default
    [maxDecimals], the only one the components use.  For other exponents
    an engine may return a neighbour of the nearest number. *)
Definition pow10 (n : Z) : number :=
  match n with
  | Zneg _ => ofRatio 1 (10 ^ (- n))
  | _ => ofZ (10 ^ n)
  end.

(** [Math.round]: the nearest integer, halves towards +infinity; the sign
    of a zero result is the sign of the argument. *)
Definition round (x : number) : number :=
  match x with
  | S754_finite s m (Zneg k) =>
      let d := Z.pow_pos 2 k in
      let v := if s then Z.neg m else Z.pos m in
      let r := Z.div (2 * v + d) (2 * d) in
      binary_normalize prec emax r 0 s
  | _ => x
  end.

(** *** Number-to-string conversion ([Number::toString], radix 10)

    For a finite non-zero [x] the digits are those of the integer [s]
    with the fewest digits [k] such that [s * 10^(n-k)] converts back to
    [x]; of two such integers the one nearer to [x] is taken, and the
    even one when they are equally near. *)

Definition digitsOf (s : Z) : string :=
  match s with
  | Zpos p => NilEmpty.string_of_uint (Pos.to_uint p)
  | _ => "0"
  end.

Fixpoint zeros (n : nat) : string :=
  match n with
  | O => ""
  | S n' => String "0" (zeros n')
  end.

(** [leadingZeros p q] for [0 < p < q]: the least [j] with [q <= p * 10^(j+1)]. *)
Fixpoint leadingZeros (fuel : nat) (p q : Z) : Z :=
  match fuel with
  | O => 0
  | S fuel' => if (q <=? 10 * p)%Z then 0%Z else (1 + leadingZeros fuel' (10 * p) q)%Z
  end.

(** The integer [n] with [10^(n-1) <= p / q < 10^n]. *)
Definition decimalExponent (p q : Z) : Z :=
  if (q <=? p)%Z then Z.of_nat (String.length (digitsOf (p / q)))
  else (- leadingZeros 400 p q)%Z.

(** The value [s * 10^(n-k)] as a number. *)
Definition ofDecimal (s n k : Z) : number :=
  if (k <=? n)%Z then ofZ (s * 10 ^ (n - k)) else ofRatio s (10 ^ (k - n)).

(** The candidates with [k] digits around [p / q]: the integer below and
    the integer above [p / q * 10^(k-n)], the nearer one first, the even
    one first when they are equally near.  An upper candidate that
    reaches [10^k] is the single digit run of [10^n]. *)
Definition candidates (p q n k : Z) : list (Z * Z * Z) :=
  let P := (p * 10 ^ (Z.max (k - n) 0))%Z in
  let Q := (q * 10 ^ (Z.max (n - k) 0))%Z in
  let lo := (P / Q)%Z in
  let r := (P mod Q)%Z in
  let below := (lo, n, k) in
  let above := if (lo + 1 =? 10 ^ k)%Z then (10 ^ (k - 1), n + 1, k)%Z
               else (lo + 1, n, k)%Z in
  if (r =? 0)%Z then [below]
  else if (2 * r <? Q)%Z then [below; above]
  else if (Q <? 2 * r)%Z then [above; below]
  else if Z.even lo then [below; above] else [above; below].

Definition roundTrips (x : number) (c : Z * Z * Z) : bool :=
  let '(s, n, k) := c in strictEq (ofDecimal s n k) x.

(** Search [k = 1, 2, ...]; 17 digits identify every binary64 value. *)
Fixpoint shortest (fuel : nat) (x : number) (p q n k : Z) : Z * Z * Z :=
  let cs := candidates p q n k in
  match find (roundTrips x) cs with
  | Some c => c
  | None =>
      match fuel with
      | O => hd (0, n, k)%Z cs
      | S fuel' => shortest fuel' x p q n (k + 1)
      end
  end.

Definition render (s n k : Z) : string :=
  let ds := digitsOf s in
  if ((k <=? n) && (n <=? 21))%Z then ds ++ zeros (Z.to_nat (n - k))
  else if ((0 <? n) && (n <=? 21))%Z then
    substring 0 (Z.to_nat n) ds ++ "." ++ substring (Z.to_nat n) (Z.to_nat (k - n)) ds
  else if ((-6 <? n) && (n <=? 0))%Z then "0." ++ zeros (Z.to_nat (- n)) ++ ds
  else
    let e := (n - 1)%Z in
    let exponent := (if (e <? 0)%Z then "-" else "+") ++ digitsOf (Z.abs e) in
    if (k =? 1)%Z then ds ++ "e" ++ exponent
    else substring 0 1 ds ++ "." ++ substring 1 (Z.to_nat (k - 1)) ds ++ "e" ++ exponent.

Definition toString (x : number) : string :=
  match x with
  | S754_nan => "NaN"
  | S754_zero _ => "0"
  | S754_infinity false => "Infinity"
  | S754_infinity true => "-Infinity"
  | S754_finite sign m e =>
      let p := match e with Zneg _ => Z.pos m | _ => (Z.pos m * 2 ^ e)%Z end in
      let q := match e with Zneg e' => Z.pow_pos 2 e' | _ => 1%Z end in
      let '(s, n, k) := shortest 16 (S754_finite false m e) p q (decimalExponent p q) 1 in
      (if sign then "-" else "") ++ render s n k
  end.

End JSNumber.

Import JSNumber.

Local Open Scope list_scope.

(** ** Characters and strings

    A string is read as its sequence of code units; [expression[i]] is
    [nth_error] on that sequence.  An [ascii] stands for a code unit below
    256, so of the characters matched by [\s] only the seven below occur. *)

Definition codeUnits (s : string) : list ascii := list_ascii_of_string s.

(** [/\s/] *)
Definition isWhitespace (c : ascii) : bool :=
  let n := N_of_ascii c in
  ((9 <=? n) && (n <=? 13) || (n =? 32) || (n =? 160))%N.

(** [/\d/] *)
Definition isDigit (c : ascii) : bool :=
  let n := N_of_ascii c in ((48 <=? n) && (n <=? 57))%N.

(** [/[\d.]/] *)
Definition isNumberChar (c : ascii) : bool :=
  isDigit c || Ascii.eqb c ".".

(** [/[+\-*/]/] *)
Definition isOperatorChar (c : ascii) : bool :=
  Ascii.eqb c "+" || Ascii.eqb c "-" || Ascii.eqb c "*" || Ascii.eqb c "/".

(** [!expression || !expression.trim()]: the string is empty or consists of
    white space only ([trim] strips exactly the characters of [\s]). *)
Definition isBlank (expression : string) : bool :=
  forallb isWhitespace (codeUnits expression).

(** *** [parseFloat]

    On the strings the tokenizer passes (digits and dots): the longest
    prefix [digits], [digits.] or [digits.digits] (or [.digits]) is
    converted; without any digit the result is [NaN]. *)

Fixpoint takeDigits (cs : list ascii) : list ascii * list ascii :=
  match cs with
  | c :: cs' =>
      if isDigit c then let '(ds, rest) := takeDigits cs' in (c :: ds, rest)
      else ([], cs)
  | [] => ([], [])
  end.

Definition digitValue (c : ascii) : Z := Z.of_N (N_of_ascii c) - 48.

Definition decimalValue (ds : list ascii) : Z :=
  fold_left (fun acc c => (10 * acc + digitValue c)%Z) ds 0%Z.

Definition parseFloat (s : string) : number :=
  let '(whole, rest) := takeDigits (codeUnits s) in
  let fraction :=
    match rest with
    | c :: rest' => if Ascii.eqb c "." then fst (takeDigits rest') else []
    | [] => []
    end in
  match whole ++ fraction with
  | [] => NaN
  | ds => ofRatio (decimalValue ds) (10 ^ Z.of_nat (List.length fraction))
  end.

(** ** Tokens *)

Inductive TokenType : Type := Tnumber | Toperator | Tlparen | Trparen.

(** [value: string | number] *)
Inductive TokenValue : Type :=
| Str (s : string)
| Num (n : number).

Record Token : Type := { type : TokenType; value : TokenValue }.

Definition TokenType_eqb (a b : TokenType) : bool :=
  match a, b with
  | Tnumber, Tnumber | Toperator, Toperator
  | Tlparen, Tlparen | Trparen, Trparen => true
  | _, _ => false
  end.

(** [token.value === s] for a string literal [s] *)
Definition valueIs (v : TokenValue) (s : string) : bool :=
  match v with
  | Str s' => String.eqb s' s
  | Num _ => false
  end.

(** The template substitution [${token.value}] *)
Definition valueToString (v : TokenValue) : string :=
  match v with
  | Str s => s
  | Num n => toString n
  end.

(** ** [tokenize] *)

(** The inner loop
    [while (i < expression.length && /[\d.]/.test(expression[i]))]. *)
Fixpoint scanNumber (fuel : nat) (expression : list ascii) (i : nat) (numStr : string)
  : outcome (string * nat) :=
  match fuel with
  | O => OutOfFuel
  | S fuel' =>
      match nth_error expression i with
      | Some c =>
          if isNumberChar c
          then scanNumber fuel' expression (S i) (numStr ++ String c "")%string
          else Ok (numStr, i)
      | None => Ok (numStr, i)
      end
  end.

(** The outer loop [while (i < expression.length)]. *)
Fixpoint tokenize_loop (fuel : nat) (expression : list ascii) (i : nat) (tokens : list Token)
  : outcome (list Token) :=
  match fuel with
  | O => OutOfFuel
  | S fuel' =>
      match nth_error expression i with
      | None => Ok tokens
      | Some c =>
          if isWhitespace c then tokenize_loop fuel' expression (S i) tokens
          else if isDigit c then
            '(numStr, i') <- scanNumber (S (List.length expression)) expression i "" ;;
            let num := parseFloat numStr in
            tokenize_loop fuel' expression i'
              (if isNaN num then tokens
               else tokens ++ [{| type := Tnumber; value := Num num |}])
          else if isOperatorChar c then
            tokenize_loop fuel' expression (S i)
              (tokens ++ [{| type := Toperator; value := Str (String c "") |}])
          else if Ascii.eqb c "(" then
            tokenize_loop fuel' expression (S i)
              (tokens ++ [{| type := Tlparen; value := Str "(" |}])
          else if Ascii.eqb c ")" then
            tokenize_loop fuel' expression (S i)
              (tokens ++ [{| type := Trparen; value := Str ")" |}])
          else Throw ("Invalid character in expression: " ++ String c "")%string
      end
  end.

Definition tokenize (expression : string) : outcome (list Token) :=
  let cs := codeUnits expression in
  tokenize_loop (S (List.length cs)) cs 0 [].

(** ** Expression trees

    [ExpressionNode] is a record with a [type] tag and optional slots; the
    parser, its only producer, fills [value] on a ['number'] node,
    [operator] and [right] on a ['unary'] node and [operator], [left] and
    [right] on a ['binary'] node, which is what the constructors carry. *)

Inductive Operator : Type := OpAdd | OpSub | OpMul | OpDiv.

Inductive ExpressionNode : Type :=
| NumberNode (value : number)
| UnaryNode (operator : Operator) (right : ExpressionNode)
| BinaryNode (operator : Operator) (left right : ExpressionNode).

(** ** [ExpressionParser] *)

Section ExpressionParser.

(** [private tokens: Token[]]; the field [current] is threaded through
    the methods as an argument and a result. *)
Variable tokens : list Token.

Definition isOperator (token : Token) (s : string) : bool :=
  TokenType_eqb (type token) Toperator && valueIs (value token) s.

(** [token.value as number] *)
Definition asNumber (v : TokenValue) : number :=
  match v with
  | Num n => n
  | Str _ => NaN
  end.

Fixpoint parseAddSub (fuel : nat) (current : nat) {struct fuel}
  : outcome (ExpressionNode * nat) :=
  match fuel with
  | O => OutOfFuel
  | S fuel' =>
      '(node, current') <- parseMulDiv fuel' current ;;
      parseAddSub_loop fuel' node current'
  end

with parseAddSub_loop (fuel : nat) (left : ExpressionNode) (current : nat) {struct fuel}
  : outcome (ExpressionNode * nat) :=
  match fuel with
  | O => OutOfFuel
  | S fuel' =>
      match nth_error tokens current with
      | None => Ok (left, current)
      | Some token =>
          if isOperator token "+" || isOperator token "-" then
            '(node, current') <- parseMulDiv fuel' (S current) ;;
            parseAddSub_loop fuel'
              (BinaryNode (if valueIs (value token) "+" then OpAdd else OpSub) left node)
              current'
          else Ok (left, current)
      end
  end

with parseMulDiv (fuel : nat) (current : nat) {struct fuel}
  : outcome (ExpressionNode * nat) :=
  match fuel with
  | O => OutOfFuel
  | S fuel' =>
      '(node, current') <- parsePrimary fuel' current ;;
      parseMulDiv_loop fuel' node current'
  end

with parseMulDiv_loop (fuel : nat) (left : ExpressionNode) (current : nat) {struct fuel}
  : outcome (ExpressionNode * nat) :=
  match fuel with
  | O => OutOfFuel
  | S fuel' =>
      match nth_error tokens current with
      | None => Ok (left, current)
      | Some token =>
          if isOperator token "*" || isOperator token "/" then
            '(node, current') <- parsePrimary fuel' (S current) ;;
            parseMulDiv_loop fuel'
              (BinaryNode (if valueIs (value token) "*" then OpMul else OpDiv) left node)
              current'
          else Ok (left, current)
      end
  end

with parsePrimary (fuel : nat) (current : nat) {struct fuel}
  : outcome (ExpressionNode * nat) :=
  match fuel with
  | O => OutOfFuel
  | S fuel' =>
      match nth_error tokens current with
      | None => Throw "Unexpected end of expression"
      | Some token =>
          if TokenType_eqb (type token) Tlparen then
            '(expr, current') <- parseAddSub fuel' (S current) ;;
            match nth_error tokens current' with
            | Some closing =>
                if TokenType_eqb (type closing) Trparen
                then Ok (expr, S current')
                else Throw "Missing closing parenthesis"
            | None => Throw "Missing closing parenthesis"
            end
          else if isOperator token "-" then
            '(operand, current') <- parsePrimary fuel' (S current) ;;
            Ok (UnaryNode OpSub operand, current')
          else if isOperator token "+" then
            parsePrimary fuel' (S current)
          else if TokenType_eqb (type token) Tnumber then
            Ok (NumberNode (asNumber (value token)), S current)
          else Throw ("Unexpected token: " ++ valueToString (value token))%string
      end
  end.

(** Fuel for a run over [tokens]: three nested calls per token at most. *)
Definition parseFuel : nat := 3 * List.length tokens + 3.

(** [parse()]: the parser starts with [current = 0]; the tree is returned
    and the final [current] is dropped. *)
Definition parse : outcome ExpressionNode :=
  '(ast, _) <- parseAddSub parseFuel 0 ;; Ok ast.

End ExpressionParser.

(** ** [evaluateNode] *)

Fixpoint evaluateNode (node : ExpressionNode) : outcome number :=
  match node with
  | NumberNode value => Ok value
  | UnaryNode operator operand =>
      operand <- evaluateNode operand ;;
      match operator with
      | OpSub => Ok (neg operand)
      | _ => Ok operand
      end
  | BinaryNode operator lhs rhs =>
      left <- evaluateNode lhs ;;
      right <- evaluateNode rhs ;;
      match operator with
      | OpAdd => Ok (add left right)
      | OpSub => Ok (sub left right)
      | OpMul => Ok (mul left right)
      | OpDiv =>
          if strictEq right (ofZ 0) then Throw "Division by zero"
          else Ok (div left right)
      end
  end.

(** ** Entry points *)

(** [try { ... } catch (error) { throw new Error(`Calculation error: ...`) }] *)
Definition rewrap {A : Type} (m : outcome A) : outcome A :=
  match m with
  | Throw message => Throw ("Calculation error: " ++ message)%string
  | _ => m
  end.

Definition evaluate (expression : string) : outcome number :=
  if isBlank expression then Ok (ofZ 0)
  else
    rewrap
      (tokens <- tokenize expression ;;
       if Nat.eqb (List.length tokens) 0 then Ok (ofZ 0)
       else
         ast <- parse tokens ;;
         evaluateNode ast).

(** The balance scan of [isValidExpression]: [None] is the early
    [return false] when [parenCount] drops below zero (kept as an integer,
    so that it can), [Some parenCount] the count after the whole loop. *)
Fixpoint countParens (tokens : list Token) (parenCount : Z) : option Z :=
  match tokens with
  | [] => Some parenCount
  | token :: rest =>
      if TokenType_eqb (type token) Tlparen then countParens rest (parenCount + 1)
      else if TokenType_eqb (type token) Trparen then
        if (parenCount - 1 <? 0)%Z then None
        else countParens rest (parenCount - 1)
      else countParens rest parenCount
  end.

(** [try { ... } catch { return false }] *)
Definition catchFalse (m : outcome bool) : outcome bool :=
  match m with
  | Throw _ => Ok false
  | _ => m
  end.

Definition isValidExpression (expression : string) : outcome bool :=
  if isBlank expression then Ok true
  else
    catchFalse
      (tokens <- tokenize expression ;;
       if Nat.eqb (List.length tokens) 0 then Ok true
       else
         match countParens tokens 0 with
         | None => Ok false
         | Some parenCount =>
             if negb (parenCount =? 0)%Z then Ok false
             else
               _ <- parse tokens ;;
               Ok true
         end).

(** ** The entry points over arbitrary stages

    The bodies of [evaluate] and [isValidExpression] once more, with the
    functions they call as parameters: [evaluate] and [isValidExpression]
    are the instances at [tokenize], [parse] and [evaluateNode].  A result
    that is the same for all stages, also for stages that throw, is
    reached without calling one. *)

Section Stages.

Variable tokenizeStage : string -> outcome (list Token).
Variable parseStage : list Token -> outcome ExpressionNode.
Variable evaluateNodeStage : ExpressionNode -> outcome number.

Definition evaluateOver (expression : string) : outcome number :=
  if isBlank expression then Ok (ofZ 0)
  else
    rewrap
      (tokens <- tokenizeStage expression ;;
       if Nat.eqb (List.length tokens) 0 then Ok (ofZ 0)
       else
         ast <- parseStage tokens ;;
         evaluateNodeStage ast).

Definition isValidExpressionOver (expression : string) : outcome bool :=
  if isBlank expression then Ok true
  else
    catchFalse
      (tokens <- tokenizeStage expression ;;
       if Nat.eqb (List.length tokens) 0 then Ok true
       else
         match countParens tokens 0 with
         | None => Ok false
         | Some parenCount =>
             if negb (parenCount =? 0)%Z then Ok false
             else
               _ <- parseStage tokens ;;
               Ok true
         end).

End Stages.

(** [formatNumber(num, maxDecimals = 10)] *)
Definition formatNumber (num : number) (maxDecimals : Z) : string :=
  if negb (isFinite num) then "Error"
  else
    let rounded := div (round (mul num (pow10 maxDecimals))) (pow10 maxDecimals) in
    toString rounded.

(** * The components that call the engine *)

(** ** String methods used by the components *)

(** [s.includes(c)] for a one-character string [c] *)
Definition includes (s : string) (c : ascii) : bool :=
  existsb (Ascii.eqb c) (codeUnits s).

Fixpoint trimStart (cs : list ascii) : list ascii :=
  match cs with
  | c :: cs' => if isWhitespace c then trimStart cs' else cs
  | [] => []
  end.

(** [s.trim()] *)
Definition trim (s : string) : string :=
  string_of_list_ascii (rev (trimStart (rev (trimStart (codeUnits s))))).

(** [s.slice(-1)]: the last character, or the empty string *)
Definition lastChar (s : string) : string :=
  match rev (codeUnits s) with
  | c :: _ => String c ""
  | [] => ""
  end.

(** [s.slice(0, -1)]: all but the last character *)
Definition dropLast (s : string) : string :=
  string_of_list_ascii (removelast (codeUnits s)).

(** [/^\d$/.test(value)] *)
Definition isSingleDigit (value : string) : bool :=
  match value with
  | String c EmptyString => isDigit c
  | _ => false
  end.

(** [['+', '-', '*', '/'].includes(s)] *)
Definition isOperatorString (s : string) : bool :=
  String.eqb s "+" || String.eqb s "-" || String.eqb s "*" || String.eqb s "/".

(** [/\d/.test(s)] and [/[\d)]/.test(s)] *)
Definition hasDigit (s : string) : bool := existsb isDigit (codeUnits s).

Definition hasDigitOrClosing (s : string) : bool :=
  existsb (fun c => isDigit c || Ascii.eqb c ")") (codeUnits s).

(** A value is truthy when it is neither [null] nor the empty string. *)
Definition truthy (s : option string) : bool :=
  match s with
  | Some v => negb (String.eqb v "")
  | None => false
  end.

(** ** [CalculatorPage]

    The four [useState] cells are the fields of [State].  A click handler
    reads the cells as they were when the page was rendered ([st]) and
    its [set...] calls take effect together afterwards, so a click is a
    function from the state before to the state after. *)

Module CalculatorPage.

Record State : Type := {
  expression : string;
  result : option string;
  error : option string;
  isNewExpression : bool
}.

Definition initial : State :=
  {| expression := "0"; result := None; error := None; isNewExpression := true |}.

Definition setExpression (v : string) (st : State) : State :=
  {| expression := v; result := result st; error := error st;
     isNewExpression := isNewExpression st |}.

Definition setResult (v : option string) (st : State) : State :=
  {| expression := expression st; result := v; error := error st;
     isNewExpression := isNewExpression st |}.

Definition setError (v : option string) (st : State) : State :=
  {| expression := expression st; result := result st; error := v;
     isNewExpression := isNewExpression st |}.

Definition setIsNewExpression (v : bool) (st : State) : State :=
  {| expression := expression st; result := result st; error := error st;
     isNewExpression := v |}.

(** [handleButtonClick(value)]; [st] is the state read, [st0] the state
    being written, which starts with [setError(null)]. *)
Definition handleButtonClick (st : State) (value : string) : outcome State :=
  let st0 := setError None st in
  if isSingleDigit value then
    let st1 :=
      if isNewExpression st && String.eqb (expression st) "0"
      then setExpression value st0
      else if isNewExpression st then setExpression value st0
      else setExpression (expression st ++ value)%string st0 in
    Ok (setResult None (setIsNewExpression false st1))
  else if String.eqb value "." then
    let st1 :=
      if isNewExpression st then setIsNewExpression false (setExpression "0." st0)
      else if negb (includes (expression st) ".")
      then setExpression (expression st ++ ".")%string st0
      else st0 in
    Ok (setResult None st1)
  else if String.eqb value "clear" then
    Ok (setIsNewExpression true
          (setError None (setResult None (setExpression "0" st0))))
  else if String.eqb value "delete" then
    let st1 :=
      if Nat.eqb (String.length (expression st)) 1
      then setIsNewExpression true (setExpression "0" st0)
      else setExpression (dropLast (expression st)) st0 in
    Ok (setResult None st1)
  else if isOperatorString value then
    if String.eqb (expression st) "0" && negb (String.eqb value "-") then Ok st0
    else
      let appended :=
        let last := lastChar (trim (expression st)) in
        if isOperatorString last && negb (String.eqb value "-")
        then setExpression (dropLast (trim (expression st)) ++ " " ++ value ++ " ")%string
               st0
        else setExpression (expression st ++ " " ++ value ++ " ")%string st0 in
      let st1 :=
        match result st with
        | Some r =>
            if isNewExpression st
            then setResult None (setExpression (r ++ " " ++ value ++ " ")%string st0)
            else appended
        | None => appended
        end in
      Ok (setIsNewExpression true st1)
  else if String.eqb value "(" then
    let st1 :=
      if isNewExpression st then setIsNewExpression false (setExpression "(" st0)
      else
        let last := lastChar (trim (expression st)) in
        if hasDigit last || String.eqb last ")"
        then setExpression (expression st ++ " * (")%string st0
        else setExpression (expression st ++ "(")%string st0 in
    Ok (setResult None st1)
  else if String.eqb value ")" then
    let last := lastChar (trim (expression st)) in
    let st1 :=
      if String.eqb last "" || hasDigitOrClosing last
      then setIsNewExpression false (setExpression (expression st ++ ")")%string st0)
      else st0 in
    Ok (setResult None st1)
  else if String.eqb value "=" then
    match isValidExpression (expression st) with
    | Ok valid =>
        if negb valid then Ok (setError (Some "Invalid expression"%string) st0)
        else
          match evaluate (expression st) with
          | Ok calculated =>
              let formatted := formatNumber calculated 10 in
              Ok (setIsNewExpression true
                    (setExpression formatted (setResult (Some formatted) st0)))
          | Throw message => Ok (setResult None (setError (Some message) st0))
          | OutOfFuel => OutOfFuel
          end
    | Throw message => Ok (setResult None (setError (Some message) st0))
    | OutOfFuel => OutOfFuel
    end
  else Ok st0.

(** A sequence of clicks. *)
Fixpoint clicks (st : State) (values : list string) : outcome State :=
  match values with
  | [] => Ok st
  | value :: rest => st' <- handleButtonClick st value ;; clicks st' rest
  end.

(** The text of the main display:
    [error ? error : result ? result : expression === '0' ? '0' : expression]. *)
Definition mainDisplay (st : State) : string :=
  if truthy (error st) then match error st with Some e => e | None => "" end
  else if truthy (result st) then match result st with Some r => r | None => "" end
  else if String.eqb (expression st) "0" then "0"
  else expression st.

(** The keys that edit a number: the digits, the point, DEL and C. *)
Definition isEditKey (value : string) : bool :=
  isSingleDigit value || String.eqb value "." || String.eqb value "delete"
  || String.eqb value "clear".

End CalculatorPage.

(** A numeral: digits and dots, the first character a digit. *)
Definition isNumeral (s : string) : bool :=
  match codeUnits s with
  | c :: cs => isDigit c && forallb isNumberChar cs
  | [] => false
  end.

(** The number of decimal points in a string. *)
Definition dots (s : string) : nat :=
  List.length (filter (Ascii.eqb ".") (codeUnits s)).

(** ** [OperatorButtonsShowcase] *)

Module OperatorButtonsShowcase.

Record State : Type := {
  lastClicked : option string;
  clickHistory : list string
}.

Definition initial : State := {| lastClicked := None; clickHistory := [] |}.

(** [array.slice(-n)]: the last [n] elements, all of them when there are
    fewer. *)
Definition sliceLast {A : Type} (n : nat) (l : list A) : list A :=
  skipn (List.length l - n) l.

(** [handleButtonClick(value)]:
    [setLastClicked(value); setClickHistory(prev => [...prev, value].slice(-5))] *)
Definition handleButtonClick (st : State) (value : string) : State :=
  {| lastClicked := Some value;
     clickHistory := sliceLast 5 (clickHistory st ++ [value]) |}.

Definition clicks (st : State) (values : list string) : State :=
  fold_left handleButtonClick values st.

End OperatorButtonsShowcase.

(** * Reference notions the properties are stated against *)

Definition numberToken (n : number) : Token := {| type := Tnumber; value := Num n |}.
Definition operatorToken (s : string) : Token := {| type := Toperator; value := Str s |}.
Definition lparenToken : Token := {| type := Tlparen; value := Str "(" |}.
Definition rparenToken : Token := {| type := Trparen; value := Str ")" |}.

(** ** The grammar of arithmetic expressions

    Standard precedence and associativity, written as the left-recursive
    grammar
<<
      additive       ::= additive + multiplicative
                       | additive - multiplicative | multiplicative
      multiplicative ::= multiplicative * primary
                       | multiplicative / primary | primary
      primary        ::= number | ( additive ) | - primary | + primary
>>
    [Derives tier ts t]: the token sequence [ts] is a phrase of [tier]
    whose tree is [t].  Left recursion is left associativity; the tiers are
    the precedence. *)

Inductive Tier : Type := Primary | Multiplicative | Additive.

Inductive Derives : Tier -> list Token -> ExpressionNode -> Prop :=
| D_number (n : number) :
    Derives Primary [numberToken n] (NumberNode n)
| D_group (ts : list Token) (t : ExpressionNode) :
    Derives Additive ts t ->
    Derives Primary (lparenToken :: ts ++ [rparenToken]) t
| D_minus (ts : list Token) (t : ExpressionNode) :
    Derives Primary ts t ->
    Derives Primary (operatorToken "-" :: ts) (UnaryNode OpSub t)
| D_plus (ts : list Token) (t : ExpressionNode) :
    Derives Primary ts t ->
    Derives Primary (operatorToken "+" :: ts) t
| D_primary (ts : list Token) (t : ExpressionNode) :
    Derives Primary ts t ->
    Derives Multiplicative ts t
| D_mul (ts1 ts2 : list Token) (t1 t2 : ExpressionNode) :
    Derives Multiplicative ts1 t1 -> Derives Primary ts2 t2 ->
    Derives Multiplicative (ts1 ++ operatorToken "*" :: ts2) (BinaryNode OpMul t1 t2)
| D_div (ts1 ts2 : list Token) (t1 t2 : ExpressionNode) :
    Derives Multiplicative ts1 t1 -> Derives Primary ts2 t2 ->
    Derives Multiplicative (ts1 ++ operatorToken "/" :: ts2) (BinaryNode OpDiv t1 t2)
| D_multiplicative (ts : list Token) (t : ExpressionNode) :
    Derives Multiplicative ts t ->
    Derives Additive ts t
| D_add (ts1 ts2 : list Token) (t1 t2 : ExpressionNode) :
    Derives Additive ts1 t1 -> Derives Multiplicative ts2 t2 ->
    Derives Additive (ts1 ++ operatorToken "+" :: ts2) (BinaryNode OpAdd t1 t2)
| D_sub (ts1 ts2 : list Token) (t1 t2 : ExpressionNode) :
    Derives Additive ts1 t1 -> Derives Multiplicative ts2 t2 ->
    Derives Additive (ts1 ++ operatorToken "-" :: ts2) (BinaryNode OpSub t1 t2).

(** The spelling of an operator, and its tier. *)
Definition symbol (op : Operator) : string :=
  match op with
  | OpAdd => "+"
  | OpSub => "-"
  | OpMul => "*"
  | OpDiv => "/"
  end.

Definition isAdditive (op : Operator) : bool :=
  match op with
  | OpAdd | OpSub => true
  | OpMul | OpDiv => false
  end.

(** Operator tokens by tier; [endsAdditive rest]: an additive phrase
    followed by [rest] is not continued by it. *)
Definition isMulDivToken (token : Token) : bool :=
  isOperator token "*" || isOperator token "/".

Definition isAddSubToken (token : Token) : bool :=
  isOperator token "+" || isOperator token "-".

Definition endsAdditive (rest : list Token) : bool :=
  match rest with
  | [] => true
  | token :: _ => negb (isMulDivToken token) && negb (isAddSubToken token)
  end.

(** ** Parenthesis depth

    The depth after a token sequence: opening minus closing parentheses. *)
Fixpoint depth (tokens : list Token) : Z :=
  match tokens with
  | [] => 0
  | token :: rest =>
      (match type token with
       | Tlparen => 1
       | Trparen => -1
       | _ => 0
       end + depth rest)%Z
  end.

(** The running depth goes negative: some prefix closes more than it opens. *)
Definition goesNegative (tokens : list Token) : Prop :=
  exists n : nat, (depth (firstn n tokens) < 0)%Z.

(** ** Characters the tokenizer accepts

    [lexable inNumber cs]: every character of [cs] is white space, a digit,
    an operator or a parenthesis, or a [.] that continues a run of digits
    and dots begun by a digit ([inNumber]: the previous character belongs
    to such a run). *)
Fixpoint lexable (inNumber : bool) (cs : list ascii) : bool :=
  match cs with
  | [] => true
  | c :: rest =>
      if isDigit c then lexable true rest
      else if Ascii.eqb c "." then inNumber && lexable true rest
      else (isWhitespace c || isOperatorChar c || Ascii.eqb c "(" || Ascii.eqb c ")")
           && lexable false rest
  end.

(** The characters the lexer's contract lists: white space, digits, [.],
    the four operators and the parentheses. *)
Definition isListedChar (c : ascii) : bool :=
  isWhitespace c || isDigit c || Ascii.eqb c "." || isOperatorChar c
  || Ascii.eqb c "(" || Ascii.eqb c ")".

(** The tree of [n] unary minus signs before [t]. *)
Fixpoint negations (n : nat) (t : ExpressionNode) : ExpressionNode :=
  match n with
  | O => t
  | S n' => UnaryNode OpSub (negations n' t)
  end.

(** A sub-tree of a tree. *)
Inductive Subtree (s : ExpressionNode) : ExpressionNode -> Prop :=
| Sub_here : Subtree s s
| Sub_operand (operator : Operator) (t : ExpressionNode) :
    Subtree s t -> Subtree s (UnaryNode operator t)
| Sub_left (operator : Operator) (t1 t2 : ExpressionNode) :
    Subtree s t1 -> Subtree s (BinaryNode operator t1 t2)
| Sub_right (operator : Operator) (t1 t2 : ExpressionNode) :
    Subtree s t2 -> Subtree s (BinaryNode operator t1 t2).







(** ** Results and fuel

    [refines r r']: once [r] is a result, more fuel gives the same result. *)
Definition refines {A : Type} (r r' : outcome A) : Prop :=
  r <> OutOfFuel -> r' = r.

(** ** Segments of a token array

    [segment tokens c ts]: the tokens of [ts] are those of [tokens] from
    index [c] on. *)
Definition segment (tokens : list Token) (c : nat) (ts : list Token) : Prop :=
  exists pre post, tokens = pre ++ ts ++ post /\ List.length pre = c.

(** The token at index [c], if any, is neither [*] nor [/]. *)
Definition notMulDivAt (tokens : list Token) (c : nat) : bool :=
  match nth_error tokens c with
  | Some token => negb (isMulDivToken token)
  | None => true
  end.

(** What the parser is to do on a phrase of each tier found at index [c]:
    a primary is parsed as its tree; a multiplicative (additive) phrase is
    parsed as whatever the loop of its tier makes of its tree and the
    tokens after it. *)
Definition ParsedAs (tier : Tier) (ts : list Token) (t : ExpressionNode) : Prop :=
  match tier with
  | Primary =>
      forall tokens c, segment tokens c ts ->
      exists fuel, parsePrimary tokens fuel c = Ok (t, c + List.length ts)
  | Multiplicative =>
      forall tokens c r fuel1, segment tokens c ts ->
      parseMulDiv_loop tokens fuel1 t (c + List.length ts) = r -> r <> OutOfFuel ->
      exists fuel, parseMulDiv tokens fuel c = r
  | Additive =>
      forall tokens c r fuel1, segment tokens c ts ->
      notMulDivAt tokens (c + List.length ts) = true ->
      parseAddSub_loop tokens fuel1 t (c + List.length ts) = r -> r <> OutOfFuel ->
      exists fuel, parseAddSub tokens fuel c = r
  end.

(** The longest run of digits and dots at the head of [cs]: what the
    inner loop of [tokenize] collects. *)
Fixpoint numberRun (cs : list ascii) : list ascii :=
  match cs with
  | c :: cs' => if isNumberChar c then c :: numberRun cs' else []
  | [] => []
  end.

(** Every dot continues a run of digits and dots begun by a digit. *)
Fixpoint dotsInNumbers (inNumber : bool) (cs : list ascii) : bool :=
  match cs with
  | [] => true
  | c :: rest =>
      if isDigit c then dotsInNumbers true rest
      else if Ascii.eqb c "." then inNumber && dotsInNumbers true rest
      else dotsInNumbers false rest
  end.

(** A character the tokenizer has no case for outside a number. *)
Definition isStray (c : ascii) : bool :=
  negb (isWhitespace c || isDigit c || isOperatorChar c
        || Ascii.eqb c "(" || Ascii.eqb c ")").

(** The first character that the tokenizer has no case for where it
    stands: a stray character, or a [.] outside a run of digits and dots
    begun by a digit. *)
Fixpoint offending (inNumber : bool) (cs : list ascii) : option ascii :=
  match cs with
  | [] => None
  | c :: rest =>
      if isDigit c then offending true rest
      else if Ascii.eqb c "." then if inNumber then offending true rest else Some c
      else if isWhitespace c || isOperatorChar c || Ascii.eqb c "(" || Ascii.eqb c ")"
      then offending false rest
      else Some c
  end.

(** The tokens of a character sequence, left to right: one number token
    for each run of digits and dots begun by a digit, carrying what
    [parseFloat] reads from the run, one token for each operator and each
    parenthesis, nothing for white space. *)
Fixpoint tokensOf (inNumber : bool) (cs : list ascii) : list Token :=
  match cs with
  | [] => []
  | c :: rest =>
      if isDigit c then
        if inNumber then tokensOf true rest
        else numberToken (parseFloat (string_of_list_ascii (numberRun (c :: rest))))
             :: tokensOf true rest
      else if Ascii.eqb c "." then tokensOf inNumber rest
      else if isOperatorChar c then operatorToken (String c "") :: tokensOf false rest
      else if Ascii.eqb c "(" then lparenToken :: tokensOf false rest
      else if Ascii.eqb c ")" then rparenToken :: tokensOf false rest
      else tokensOf false rest
  end.

(** ** Tokens as the tokenizer builds them

    A number token carries a number other than [NaN], an operator token
    one of the four operator characters, a parenthesis token its
    character. *)
Definition canonicalToken (token : Token) : bool :=
  match type token, value token with
  | Tnumber, Num n => negb (isNaN n)
  | Toperator, Str s =>
      String.eqb s "+" || String.eqb s "-" || String.eqb s "*" || String.eqb s "/"
  | Tlparen, Str s => String.eqb s "("
  | Trparen, Str s => String.eqb s ")"
  | _, _ => false
  end.

(** No prefix closes more parentheses than it opens. *)
Definition prefixesBalanced (ts : list Token) : Prop :=
  forall n, (0 <= depth (firstn n ts))%Z.

(** The messages [parse] throws on canonical tokens. *)
Definition isParseError (message : string) : bool :=
  String.eqb message "Unexpected end of expression"
  || String.eqb message "Missing closing parenthesis"
  || String.eqb message "Unexpected token: *"
  || String.eqb message "Unexpected token: /"
  || String.eqb message "Unexpected token: )".

(** * Properties *)

(** ** Outcomes and fuel *)

Lemma refines_refl {A : Type} (r : outcome A) : refines r r.
Proof. intros _. reflexivity. Qed.

Lemma bind_refines {A B : Type} (m m' : outcome A) (k k' : A -> outcome B) :
  refines m m' ->
  (forall a, refines (k a) (k' a)) ->
  refines (bind m k) (bind m' k').
Proof.
  unfold refines. intros Hm Hk H.
  destruct m as [a | message | ]; simpl in H.
  - rewrite Hm by discriminate. simpl. now apply Hk.
  - rewrite Hm by discriminate. reflexivity.
  - contradiction.
Qed.

Lemma bind_Ok_inv {A B : Type} (m : outcome A) (k : A -> outcome B) (b : B) :
  bind m k = Ok b -> exists a, m = Ok a /\ k a = Ok b.
Proof.
  destruct m as [a | message | ]; simpl; intros H; try discriminate.
  exists a. split; [reflexivity | exact H].
Qed.

Lemma bind_returns {A B : Type} (m : outcome A) (k : A -> outcome B) :
  m <> OutOfFuel ->
  (forall a, m = Ok a -> k a <> OutOfFuel) ->
  bind m k <> OutOfFuel.
Proof.
  destruct m as [a | message | ]; simpl; intros Hm Hk.
  - now apply Hk.
  - discriminate.
  - contradiction.
Qed.

(** ** The parser: unfolding, fuel, progress *)

Section ParserFacts.

Variable tokens : list Token.

Lemma parseAddSub_S (fuel current : nat) :
  parseAddSub tokens (S fuel) current =
  ('(node, current') <- parseMulDiv tokens fuel current ;;
   parseAddSub_loop tokens fuel node current').
Proof. reflexivity. Qed.

Lemma parseAddSub_loop_S (fuel : nat) (left : ExpressionNode) (current : nat) :
  parseAddSub_loop tokens (S fuel) left current =
  match nth_error tokens current with
  | None => Ok (left, current)
  | Some token =>
      if isOperator token "+" || isOperator token "-" then
        '(node, current') <- parseMulDiv tokens fuel (S current) ;;
        parseAddSub_loop tokens fuel
          (BinaryNode (if valueIs (value token) "+" then OpAdd else OpSub) left node)
          current'
      else Ok (left, current)
  end.
Proof. reflexivity. Qed.

Lemma parseMulDiv_S (fuel current : nat) :
  parseMulDiv tokens (S fuel) current =
  ('(node, current') <- parsePrimary tokens fuel current ;;
   parseMulDiv_loop tokens fuel node current').
Proof. reflexivity. Qed.

Lemma parseMulDiv_loop_S (fuel : nat) (left : ExpressionNode) (current : nat) :
  parseMulDiv_loop tokens (S fuel) left current =
  match nth_error tokens current with
  | None => Ok (left, current)
  | Some token =>
      if isOperator token "*" || isOperator token "/" then
        '(node, current') <- parsePrimary tokens fuel (S current) ;;
        parseMulDiv_loop tokens fuel
          (BinaryNode (if valueIs (value token) "*" then OpMul else OpDiv) left node)
          current'
      else Ok (left, current)
  end.
Proof. reflexivity. Qed.

Lemma parsePrimary_S (fuel current : nat) :
  parsePrimary tokens (S fuel) current =
  match nth_error tokens current with
  | None => Throw "Unexpected end of expression"
  | Some token =>
      if TokenType_eqb (type token) Tlparen then
        '(expr, current') <- parseAddSub tokens fuel (S current) ;;
        match nth_error tokens current' with
        | Some closing =>
            if TokenType_eqb (type closing) Trparen
            then Ok (expr, S current')
            else Throw "Missing closing parenthesis"
        | None => Throw "Missing closing parenthesis"
        end
      else if isOperator token "-" then
        '(operand, current') <- parsePrimary tokens fuel (S current) ;;
        Ok (UnaryNode OpSub operand, current')
      else if isOperator token "+" then
        parsePrimary tokens fuel (S current)
      else if TokenType_eqb (type token) Tnumber then
        Ok (NumberNode (asNumber (value token)), S current)
      else Throw ("Unexpected token: " ++ valueToString (value token))%string
  end.
Proof. reflexivity. Qed.

(** A result does not change when more fuel is supplied. *)
Lemma parse_fuel_mono (fuel : nat) :
  forall fuel', fuel <= fuel' ->
  (forall c, refines (parseAddSub tokens fuel c) (parseAddSub tokens fuel' c))
  /\ (forall l c, refines (parseAddSub_loop tokens fuel l c)
                          (parseAddSub_loop tokens fuel' l c))
  /\ (forall c, refines (parseMulDiv tokens fuel c) (parseMulDiv tokens fuel' c))
  /\ (forall l c, refines (parseMulDiv_loop tokens fuel l c)
                          (parseMulDiv_loop tokens fuel' l c))
  /\ (forall c, refines (parsePrimary tokens fuel c) (parsePrimary tokens fuel' c)).
Proof.
  induction fuel as [| fuel IH]; intros fuel' Hle.
  - repeat split; intros; intros H; now elim H.
  - destruct fuel' as [| fuel']; [lia |].
    destruct (IH fuel' ltac:(lia)) as (HA & HAL & HM & HML & HP).
    repeat split.
    + intros c. rewrite !parseAddSub_S.
      apply bind_refines; [apply HM | intros [node c']; apply HAL].
    + intros l c. rewrite !parseAddSub_loop_S.
      destruct (nth_error tokens c) as [token |]; [| apply refines_refl].
      destruct (isOperator token "+" || isOperator token "-"); [| apply refines_refl].
      apply bind_refines; [apply HM | intros [node c']; apply HAL].
    + intros c. rewrite !parseMulDiv_S.
      apply bind_refines; [apply HP | intros [node c']; apply HML].
    + intros l c. rewrite !parseMulDiv_loop_S.
      destruct (nth_error tokens c) as [token |]; [| apply refines_refl].
      destruct (isOperator token "*" || isOperator token "/"); [| apply refines_refl].
      apply bind_refines; [apply HP | intros [node c']; apply HML].
    + intros c. rewrite !parsePrimary_S.
      destruct (nth_error tokens c) as [token |]; [| apply refines_refl].
      destruct (TokenType_eqb (type token) Tlparen).
      { apply bind_refines; [apply HA | intros [node c']; apply refines_refl]. }
      destruct (isOperator token "-").
      { apply bind_refines; [apply HP | intros [node c']; apply refines_refl]. }
      destruct (isOperator token "+"); [apply HP |].
      apply refines_refl.
Qed.

(** Every call that returns has moved [current] forward (the loops: not
    backward). *)
Lemma parse_progress (fuel : nat) :
  (forall c t c', parseAddSub tokens fuel c = Ok (t, c') -> c < c')
  /\ (forall l c t c', parseAddSub_loop tokens fuel l c = Ok (t, c') -> c <= c')
  /\ (forall c t c', parseMulDiv tokens fuel c = Ok (t, c') -> c < c')
  /\ (forall l c t c', parseMulDiv_loop tokens fuel l c = Ok (t, c') -> c <= c')
  /\ (forall c t c', parsePrimary tokens fuel c = Ok (t, c') -> c < c').
Proof.
  induction fuel as [| fuel (HA & HAL & HM & HML & HP)].
  - repeat split; intros; discriminate.
  - repeat split.
    + intros c t c'. rewrite parseAddSub_S. intros H.
      apply bind_Ok_inv in H. destruct H as ([node c1] & H1 & H2).
      apply HM in H1. apply HAL in H2. lia.
    + intros l c t c'. rewrite parseAddSub_loop_S.
      destruct (nth_error tokens c) as [token |];
        [| intros H; injection H; intros; lia].
      destruct (isOperator token "+" || isOperator token "-");
        [| intros H; injection H; intros; lia].
      intros H. apply bind_Ok_inv in H. destruct H as ([node c1] & H1 & H2).
      apply HM in H1. apply HAL in H2. lia.
    + intros c t c'. rewrite parseMulDiv_S. intros H.
      apply bind_Ok_inv in H. destruct H as ([node c1] & H1 & H2).
      apply HP in H1. apply HML in H2. lia.
    + intros l c t c'. rewrite parseMulDiv_loop_S.
      destruct (nth_error tokens c) as [token |];
        [| intros H; injection H; intros; lia].
      destruct (isOperator token "*" || isOperator token "/");
        [| intros H; injection H; intros; lia].
      intros H. apply bind_Ok_inv in H. destruct H as ([node c1] & H1 & H2).
      apply HP in H1. apply HML in H2. lia.
    + intros c t c'. rewrite parsePrimary_S.
      destruct (nth_error tokens c) as [token |]; [| discriminate].
      destruct (TokenType_eqb (type token) Tlparen).
      { intros H. apply bind_Ok_inv in H. destruct H as ([node c1] & H1 & H2).
        apply HA in H1.
        destruct (nth_error tokens c1) as [closing |]; [| discriminate].
        destruct (TokenType_eqb (type closing) Trparen); [| discriminate].
        injection H2; intros; lia. }
      destruct (isOperator token "-").
      { intros H. apply bind_Ok_inv in H. destruct H as ([node c1] & H1 & H2).
        apply HP in H1. injection H2; intros; lia. }
      destruct (isOperator token "+").
      { intros H. apply HP in H. lia. }
      destruct (TokenType_eqb (type token) Tnumber); [| discriminate].
      intros H; injection H; intros; lia.
Qed.

(** Three units of fuel per remaining token (and up to three more)
    are enough for every call. *)
Lemma parse_fuel_enough (fuel : nat) :
  (forall c, 3 * (List.length tokens - c) + 3 <= fuel ->
             parseAddSub tokens fuel c <> OutOfFuel)
  /\ (forall l c, 3 * (List.length tokens - c) + 2 <= fuel ->
                  parseAddSub_loop tokens fuel l c <> OutOfFuel)
  /\ (forall c, 3 * (List.length tokens - c) + 2 <= fuel ->
                parseMulDiv tokens fuel c <> OutOfFuel)
  /\ (forall l c, 3 * (List.length tokens - c) + 1 <= fuel ->
                  parseMulDiv_loop tokens fuel l c <> OutOfFuel)
  /\ (forall c, 3 * (List.length tokens - c) + 1 <= fuel ->
                parsePrimary tokens fuel c <> OutOfFuel).
Proof.
  induction fuel as [| fuel (HA & HAL & HM & HML & HP)].
  - repeat split; intros; lia.
  - destruct (parse_progress fuel) as (PA & PAL & PM & PML & PP).
    repeat split.
    + intros c Hc. rewrite parseAddSub_S.
      apply bind_returns; [apply HM; lia |].
      intros [node c1] H1. apply PM in H1. apply HAL. lia.
    + intros l c Hc. rewrite parseAddSub_loop_S.
      destruct (nth_error tokens c) as [token |] eqn:Hnth; [| discriminate].
      assert (c < List.length tokens) by (apply nth_error_Some; congruence).
      destruct (isOperator token "+" || isOperator token "-"); [| discriminate].
      apply bind_returns; [apply HM; lia |].
      intros [node c1] H1. apply PM in H1. apply HAL. lia.
    + intros c Hc. rewrite parseMulDiv_S.
      apply bind_returns; [apply HP; lia |].
      intros [node c1] H1. apply PP in H1. apply HML. lia.
    + intros l c Hc. rewrite parseMulDiv_loop_S.
      destruct (nth_error tokens c) as [token |] eqn:Hnth; [| discriminate].
      assert (c < List.length tokens) by (apply nth_error_Some; congruence).
      destruct (isOperator token "*" || isOperator token "/"); [| discriminate].
      apply bind_returns; [apply HP; lia |].
      intros [node c1] H1. apply PP in H1. apply HML. lia.
    + intros c Hc. rewrite parsePrimary_S.
      destruct (nth_error tokens c) as [token |] eqn:Hnth; [| discriminate].
      assert (c < List.length tokens) by (apply nth_error_Some; congruence).
      destruct (TokenType_eqb (type token) Tlparen).
      { apply bind_returns; [apply HA; lia |].
        intros [node c1] _.
        destruct (nth_error tokens c1) as [closing |]; [| discriminate].
        destruct (TokenType_eqb (type closing) Trparen); discriminate. }
      destruct (isOperator token "-").
      { apply bind_returns; [apply HP; lia |]. intros [node c1] _. discriminate. }
      destruct (isOperator token "+"); [apply HP; lia |].
      destruct (TokenType_eqb (type token) Tnumber); discriminate.
Qed.

(** [parse] always returns or throws. *)
Lemma parse_returns : parse tokens <> OutOfFuel.
Proof.
  unfold parse, parseFuel.
  apply bind_returns.
  - apply (parse_fuel_enough (3 * List.length tokens + 3)). lia.
  - intros [ast c] _. discriminate.
Qed.

(** A result obtained with some fuel is the result with the fuel of [parse]. *)
Lemma parseAddSub_at_parseFuel (fuel : nat) (r : outcome (ExpressionNode * nat)) :
  parseAddSub tokens fuel 0 = r -> r <> OutOfFuel ->
  parseAddSub tokens (parseFuel tokens) 0 = r.
Proof.
  intros H Hr.
  destruct (Nat.le_ge_cases fuel (parseFuel tokens)) as [Hle | Hle].
  - destruct (parse_fuel_mono fuel (parseFuel tokens) Hle) as (HA & _).
    rewrite (HA 0) by (rewrite H; exact Hr). exact H.
  - destruct (parse_fuel_mono (parseFuel tokens) fuel Hle) as (HA & _).
    rewrite <- H. symmetry. apply HA.
    apply (parse_fuel_enough (parseFuel tokens)). unfold parseFuel. lia.
Qed.

Lemma parse_of_fuel (fuel : nat) (t : ExpressionNode) (c : nat) :
  parseAddSub tokens fuel 0 = Ok (t, c) -> parse tokens = Ok t.
Proof.
  intros H. unfold parse.
  rewrite (parseAddSub_at_parseFuel fuel (Ok (t, c)) H) by discriminate.
  reflexivity.
Qed.

Lemma parse_throw_of_fuel (fuel : nat) (message : string) :
  parseAddSub tokens fuel 0 = Throw message -> parse tokens = Throw message.
Proof.
  intros H. unfold parse.
  rewrite (parseAddSub_at_parseFuel fuel (Throw message) H) by discriminate.
  reflexivity.
Qed.

(** Lifting a result to more fuel, one lemma per method. *)
Lemma parseAddSub_lift (f f' c : nat) (r : outcome (ExpressionNode * nat)) :
  parseAddSub tokens f c = r -> r <> OutOfFuel -> f <= f' ->
  parseAddSub tokens f' c = r.
Proof.
  intros H Hr Hle. destruct (parse_fuel_mono f f' Hle) as (HA & _).
  rewrite <- H. apply HA. now rewrite H.
Qed.

Lemma parseAddSub_loop_lift (f f' : nat) (l : ExpressionNode) (c : nat)
      (r : outcome (ExpressionNode * nat)) :
  parseAddSub_loop tokens f l c = r -> r <> OutOfFuel -> f <= f' ->
  parseAddSub_loop tokens f' l c = r.
Proof.
  intros H Hr Hle. destruct (parse_fuel_mono f f' Hle) as (_ & HAL & _).
  rewrite <- H. apply HAL. now rewrite H.
Qed.

Lemma parseMulDiv_lift (f f' c : nat) (r : outcome (ExpressionNode * nat)) :
  parseMulDiv tokens f c = r -> r <> OutOfFuel -> f <= f' ->
  parseMulDiv tokens f' c = r.
Proof.
  intros H Hr Hle. destruct (parse_fuel_mono f f' Hle) as (_ & _ & HM & _).
  rewrite <- H. apply HM. now rewrite H.
Qed.

Lemma parseMulDiv_loop_lift (f f' : nat) (l : ExpressionNode) (c : nat)
      (r : outcome (ExpressionNode * nat)) :
  parseMulDiv_loop tokens f l c = r -> r <> OutOfFuel -> f <= f' ->
  parseMulDiv_loop tokens f' l c = r.
Proof.
  intros H Hr Hle. destruct (parse_fuel_mono f f' Hle) as (_ & _ & _ & HML & _).
  rewrite <- H. apply HML. now rewrite H.
Qed.

Lemma parsePrimary_lift (f f' c : nat) (r : outcome (ExpressionNode * nat)) :
  parsePrimary tokens f c = r -> r <> OutOfFuel -> f <= f' ->
  parsePrimary tokens f' c = r.
Proof.
  intros H Hr Hle. destruct (parse_fuel_mono f f' Hle) as (_ & _ & _ & _ & HP).
  rewrite <- H. apply HP. now rewrite H.
Qed.

End ParserFacts.

(** ** The parser implements the grammar *)

Lemma segment_cons (tokens : list Token) (c : nat) (x : Token) (ts : list Token) :
  segment tokens c (x :: ts) ->
  nth_error tokens c = Some x /\ segment tokens (S c) ts.
Proof.
  intros (pre & post & -> & <-). split.
  - rewrite nth_error_app2 by lia. now rewrite Nat.sub_diag.
  - exists (pre ++ [x]), post. split.
    + now rewrite <- app_assoc.
    + rewrite length_app. simpl. lia.
Qed.

Lemma segment_app (tokens : list Token) (c : nat) (ts1 ts2 : list Token) :
  segment tokens c (ts1 ++ ts2) ->
  segment tokens c ts1 /\ segment tokens (c + List.length ts1) ts2.
Proof.
  intros (pre & post & -> & <-). split.
  - exists pre, (ts2 ++ post). split; [now rewrite <- app_assoc | reflexivity].
  - exists (pre ++ ts1), post. split.
    + now rewrite <- !app_assoc.
    + now rewrite length_app.
Qed.

Lemma segment_whole (ts : list Token) : segment ts 0 ts.
Proof. exists [], []. split; [now rewrite app_nil_r | reflexivity]. Qed.

Lemma segment_end (tokens : list Token) (c : nat) (ts : list Token) (x : Token) :
  segment tokens c (ts ++ [x]) ->
  nth_error tokens (c + List.length ts) = Some x.
Proof.
  intros H. apply segment_app in H. destruct H as (_ & H).
  now apply segment_cons in H.
Qed.

Lemma parseMulDiv_loop_stop (tokens : list Token) (left : ExpressionNode) (c : nat) :
  notMulDivAt tokens c = true ->
  parseMulDiv_loop tokens 1 left c = Ok (left, c).
Proof.
  unfold notMulDivAt, isMulDivToken. intros Hend. rewrite parseMulDiv_loop_S.
  destruct (nth_error tokens c) as [token |]; [| reflexivity].
  destruct (isOperator token "*" || isOperator token "/"); [discriminate | reflexivity].
Qed.

Lemma derives_parsed (tier : Tier) (ts : list Token) (t : ExpressionNode) :
  Derives tier ts t -> ParsedAs tier ts t.
Proof.
  induction 1 as
    [ n
    | ts t _ IH
    | ts t _ IH
    | ts t _ IH
    | ts t _ IH
    | ts1 ts2 t1 t2 _ IH1 _ IH2
    | ts1 ts2 t1 t2 _ IH1 _ IH2
    | ts t _ IH
    | ts1 ts2 t1 t2 _ IH1 _ IH2
    | ts1 ts2 t1 t2 _ IH1 _ IH2 ]; simpl in *.
  - (* number *)
    intros tokens c Hseg. apply segment_cons in Hseg. destruct Hseg as (Hc & _).
    exists 1. rewrite parsePrimary_S, Hc. simpl. f_equal. f_equal. lia.
  - (* ( additive ) *)
    intros tokens c Hseg. apply segment_cons in Hseg. destruct Hseg as (Hc & Hseg).
    pose proof (segment_end _ _ _ _ Hseg) as Hclose.
    apply segment_app in Hseg. destruct Hseg as (Hseg & _).
    destruct (IH tokens (S c) (Ok (t, S c + List.length ts)) 1 Hseg) as (fuel & Hfuel).
    + unfold notMulDivAt. now rewrite Hclose.
    + rewrite parseAddSub_loop_S, Hclose. reflexivity.
    + discriminate.
    + exists (S fuel). rewrite parsePrimary_S, Hc. simpl.
      rewrite Hfuel. simpl. simpl in Hclose. rewrite Hclose. simpl.
      f_equal. f_equal. rewrite length_app. simpl. lia.
  - (* - primary *)
    intros tokens c Hseg. apply segment_cons in Hseg. destruct Hseg as (Hc & Hseg).
    destruct (IH tokens (S c) Hseg) as (fuel & Hfuel).
    exists (S fuel). rewrite parsePrimary_S, Hc. simpl.
    rewrite Hfuel. simpl. f_equal. f_equal. lia.
  - (* + primary *)
    intros tokens c Hseg. apply segment_cons in Hseg. destruct Hseg as (Hc & Hseg).
    destruct (IH tokens (S c) Hseg) as (fuel & Hfuel).
    exists (S fuel). rewrite parsePrimary_S, Hc. simpl.
    rewrite Hfuel. simpl. f_equal. f_equal. lia.
  - (* primary as multiplicative *)
    intros tokens c r fuel1 Hseg Hloop Hr.
    destruct (IH tokens c Hseg) as (fuel & Hfuel).
    exists (S (Nat.max fuel fuel1)). rewrite parseMulDiv_S.
    rewrite (parsePrimary_lift tokens fuel _ c _ Hfuel) by (discriminate || lia).
    simpl. apply (parseMulDiv_loop_lift tokens fuel1); [exact Hloop | exact Hr | lia].
  - (* multiplicative * primary *)
    intros tokens c r fuel1 Hseg Hloop Hr.
    apply segment_app in Hseg. destruct Hseg as (Hseg1 & Hseg2).
    apply segment_cons in Hseg2. destruct Hseg2 as (Hop & Hseg2).
    destruct (IH2 tokens _ Hseg2) as (fuel2 & Hfuel2).
    apply (IH1 tokens c r (S (Nat.max fuel1 fuel2)) Hseg1); [| exact Hr].
    rewrite parseMulDiv_loop_S, Hop. simpl.
    rewrite (parsePrimary_lift tokens fuel2 _ _ _ Hfuel2) by (discriminate || lia).
    simpl. apply (parseMulDiv_loop_lift tokens fuel1); [| exact Hr | lia].
    rewrite <- Hloop. f_equal. rewrite length_app. simpl. lia.
  - (* multiplicative / primary *)
    intros tokens c r fuel1 Hseg Hloop Hr.
    apply segment_app in Hseg. destruct Hseg as (Hseg1 & Hseg2).
    apply segment_cons in Hseg2. destruct Hseg2 as (Hop & Hseg2).
    destruct (IH2 tokens _ Hseg2) as (fuel2 & Hfuel2).
    apply (IH1 tokens c r (S (Nat.max fuel1 fuel2)) Hseg1); [| exact Hr].
    rewrite parseMulDiv_loop_S, Hop. simpl.
    rewrite (parsePrimary_lift tokens fuel2 _ _ _ Hfuel2) by (discriminate || lia).
    simpl. apply (parseMulDiv_loop_lift tokens fuel1); [| exact Hr | lia].
    rewrite <- Hloop. f_equal. rewrite length_app. simpl. lia.
  - (* multiplicative as additive *)
    intros tokens c r fuel1 Hseg Hend Hloop Hr.
    destruct (IH tokens c (Ok (t, c + List.length ts)) 1 Hseg) as (fuel & Hfuel).
    + now apply parseMulDiv_loop_stop.
    + discriminate.
    + exists (S (Nat.max fuel fuel1)). rewrite parseAddSub_S.
      rewrite (parseMulDiv_lift tokens fuel _ c _ Hfuel) by (discriminate || lia).
      simpl. apply (parseAddSub_loop_lift tokens fuel1); [exact Hloop | exact Hr | lia].
  - (* additive + multiplicative *)
    intros tokens c r fuel1 Hseg Hend Hloop Hr.
    apply segment_app in Hseg. destruct Hseg as (Hseg1 & Hseg2).
    apply segment_cons in Hseg2. destruct Hseg2 as (Hop & Hseg2).
    assert (Hlen : S (c + List.length ts1) + List.length ts2
                   = c + List.length (ts1 ++ operatorToken "+" :: ts2))
      by (rewrite length_app; simpl; lia).
    destruct (IH2 tokens _ (Ok (t2, S (c + List.length ts1) + List.length ts2)) 1 Hseg2)
      as (fuel2 & Hfuel2).
    + rewrite Hlen. apply parseMulDiv_loop_stop. exact Hend.
    + discriminate.
    + apply (IH1 tokens c r (S (Nat.max fuel1 fuel2)) Hseg1); [| | exact Hr].
      * unfold notMulDivAt. now rewrite Hop.
      * rewrite parseAddSub_loop_S, Hop. simpl.
        rewrite (parseMulDiv_lift tokens fuel2 _ _ _ Hfuel2) by (discriminate || lia).
        simpl. apply (parseAddSub_loop_lift tokens fuel1); [| exact Hr | lia].
        rewrite <- Hloop. f_equal. rewrite length_app. simpl. lia.
  - (* additive - multiplicative *)
    intros tokens c r fuel1 Hseg Hend Hloop Hr.
    apply segment_app in Hseg. destruct Hseg as (Hseg1 & Hseg2).
    apply segment_cons in Hseg2. destruct Hseg2 as (Hop & Hseg2).
    assert (Hlen : S (c + List.length ts1) + List.length ts2
                   = c + List.length (ts1 ++ operatorToken "-" :: ts2))
      by (rewrite length_app; simpl; lia).
    destruct (IH2 tokens _ (Ok (t2, S (c + List.length ts1) + List.length ts2)) 1 Hseg2)
      as (fuel2 & Hfuel2).
    + rewrite Hlen. apply parseMulDiv_loop_stop. exact Hend.
    + discriminate.
    + apply (IH1 tokens c r (S (Nat.max fuel1 fuel2)) Hseg1); [| | exact Hr].
      * unfold notMulDivAt. now rewrite Hop.
      * rewrite parseAddSub_loop_S, Hop. simpl.
        rewrite (parseMulDiv_lift tokens fuel2 _ _ _ Hfuel2) by (discriminate || lia).
        simpl. apply (parseAddSub_loop_lift tokens fuel1); [| exact Hr | lia].
        rewrite <- Hloop. f_equal. rewrite length_app. simpl. lia.
Qed.

Lemma derives_parse (ts : list Token) (t : ExpressionNode) :
  Derives Additive ts t -> parse ts = Ok t.
Proof.
  intros H. apply derives_parsed in H. simpl in H.
  assert (Hnone : nth_error ts (0 + List.length ts) = None)
    by (apply nth_error_None; simpl; lia).
  destruct (H ts 0 (Ok (t, 0 + List.length ts)) 1 (segment_whole ts)) as (fuel & Hfuel).
  - unfold notMulDivAt. now rewrite Hnone.
  - rewrite parseAddSub_loop_S. now rewrite Hnone.
  - discriminate.
  - now apply parse_of_fuel in Hfuel.
Qed.

Lemma derives_nonempty (tier : Tier) (ts : list Token) (t : ExpressionNode) :
  Derives tier ts t -> ts <> [].
Proof.
  induction 1; try discriminate; try assumption;
    intros E; apply app_eq_nil in E; destruct E; discriminate.
Qed.

(** ** The tokenizer *)

Lemma char_classes (c : ascii) :
  (isWhitespace c = true -> isNumberChar c = false)
  /\ (isDigit c = true -> isOperatorChar c = false /\ Ascii.eqb c "." = false)
  /\ (Ascii.eqb c "." = true ->
      isOperatorChar c = false /\ Ascii.eqb c "(" = false /\ Ascii.eqb c ")" = false).
Proof.
  destruct c as [[|] [|] [|] [|] [|] [|] [|] [|]]; vm_compute;
    repeat split; intros; congruence.
Qed.

Lemma skipn_nth_None {A : Type} (l : list A) (i : nat) :
  nth_error l i = None -> skipn i l = [].
Proof. intros H. apply skipn_all2. now apply nth_error_None. Qed.

Lemma skipn_nth_Some {A : Type} (l : list A) (i : nat) (x : A) :
  nth_error l i = Some x -> skipn i l = x :: skipn (S i) l.
Proof.
  revert i. induction l as [| y l IH]; intros [| i] H; simpl in *; try discriminate.
  - now injection H as ->.
  - now apply IH.
Qed.

Lemma append_assoc (a b c : string) : ((a ++ b) ++ c)%string = (a ++ (b ++ c))%string.
Proof. induction a as [| x a IH]; simpl; [reflexivity | now rewrite IH]. Qed.

Lemma append_nil_r (a : string) : (a ++ "")%string = a.
Proof. induction a as [| x a IH]; simpl; [reflexivity | now rewrite IH]. Qed.

Lemma codeUnits_append (a b : string) :
  codeUnits (a ++ b)%string = codeUnits a ++ codeUnits b.
Proof.
  unfold codeUnits. induction a as [| c a IH]; simpl; [reflexivity | now rewrite IH].
Qed.

Lemma length_codeUnits (s : string) : String.length s = List.length (codeUnits s).
Proof. induction s as [| c s IH]; simpl; [reflexivity | now rewrite IH]. Qed.

Lemma forallb_skipn {A : Type} (f : A -> bool) (l : list A) (n : nat) :
  forallb f l = true -> forallb f (skipn n l) = true.
Proof.
  revert n. induction l as [| x l IH]; intros [| n] H; simpl in *; try reflexivity.
  - exact H.
  - apply andb_prop in H. now apply IH.
Qed.

Section TokenizerFacts.

Variable expression : list ascii.

Lemma scanNumber_run (fuel i : nat) (numStr : string) :
  List.length expression - i < fuel ->
  scanNumber fuel expression i numStr =
  Ok ((numStr ++ string_of_list_ascii (numberRun (skipn i expression)))%string,
      i + List.length (numberRun (skipn i expression))).
Proof.
  revert i numStr. induction fuel as [| fuel IH]; intros i numStr Hfuel; [lia |].
  simpl. destruct (nth_error expression i) as [c |] eqn:Hc.
  - rewrite (skipn_nth_Some _ _ _ Hc). simpl.
    assert (i < List.length expression) by (apply nth_error_Some; congruence).
    destruct (isNumberChar c).
    + rewrite IH by lia. simpl. f_equal. f_equal.
      * now rewrite append_assoc.
      * lia.
    + simpl. rewrite append_nil_r. f_equal. f_equal. lia.
  - rewrite (skipn_nth_None _ _ Hc). simpl.
    rewrite append_nil_r. f_equal. f_equal. lia.
Qed.

Lemma skipn_numberRun (i : nat) :
  skipn i expression =
  numberRun (skipn i expression)
  ++ skipn (i + List.length (numberRun (skipn i expression))) expression.
Proof.
  rewrite Nat.add_comm, <- skipn_skipn.
  generalize (skipn i expression) as cs.
  induction cs as [| c cs IH]; simpl; [reflexivity |].
  destruct (isNumberChar c); simpl; [now rewrite <- IH | reflexivity].
Qed.

Lemma numberRun_stops (cs : list ascii) :
  match skipn (List.length (numberRun cs)) cs with
  | c :: _ => isNumberChar c = false
  | [] => True
  end.
Proof.
  induction cs as [| c cs IH]; simpl; [exact I |].
  destruct (isNumberChar c) eqn:E; simpl; [exact IH | exact E].
Qed.

Lemma lexable_run (cs rest : list ascii) :
  lexable true (numberRun cs ++ rest) = lexable true rest.
Proof.
  induction cs as [| c cs IH]; simpl; [reflexivity |].
  destruct (isNumberChar c) eqn:E; simpl; [| reflexivity].
  unfold isNumberChar in E.
  destruct (isDigit c); [exact IH |].
  simpl in E. rewrite E. exact IH.
Qed.

Lemma lexable_after_run (b : bool) (rest : list ascii) :
  match rest with
  | c :: _ => isNumberChar c = false
  | [] => True
  end ->
  lexable b rest = lexable false rest.
Proof.
  destruct rest as [| c rest]; simpl; [reflexivity |].
  unfold isNumberChar. intros H. apply orb_false_elim in H. destruct H as (-> & ->).
  reflexivity.
Qed.

#[local] Arguments skipn : simpl never.

(** The outer loop returns exactly on the lexable suffixes, and else
    throws naming a stray character or a dot outside a number. *)
Lemma tokenize_loop_lexable (fuel : nat) :
  forall i tokens, List.length expression - i < fuel ->
  if lexable false (skipn i expression)
  then exists ts, tokenize_loop fuel expression i tokens = Ok ts
  else exists c,
      In c expression /\ isStray c = true
      /\ tokenize_loop fuel expression i tokens
         = Throw ("Invalid character in expression: " ++ String c "")%string.
Proof.
  induction fuel as [| fuel IH]; intros i tokens Hfuel; [lia |].
  simpl tokenize_loop.
  destruct (nth_error expression i) as [c |] eqn:Hc.
  2:{ rewrite (skipn_nth_None _ _ Hc). simpl. now exists tokens. }
  assert (Hi : i < List.length expression) by (apply nth_error_Some; congruence).
  pose proof (nth_error_In _ _ Hc) as Hin.
  destruct (char_classes c) as (Hws & Hdig & Hdot).
  destruct (isWhitespace c) eqn:Ews.
  { rewrite (skipn_nth_Some _ _ _ Hc). simpl.
    specialize (Hws eq_refl). unfold isNumberChar in Hws.
    apply orb_false_elim in Hws. destruct Hws as (-> & ->).
    rewrite Ews. simpl. apply IH. lia. }
  destruct (isDigit c) eqn:Edig.
  { rewrite scanNumber_run by lia.
    assert (Enc : isNumberChar c = true) by (unfold isNumberChar; now rewrite Edig).
    rewrite Enc. cbn [bind].
    pose proof (skipn_numberRun i) as Hsplit.
    pose proof (numberRun_stops (skipn i expression)) as Hstop.
    rewrite skipn_skipn, Nat.add_comm in Hstop.
    assert (Hrun : numberRun (skipn i expression)
                   = c :: numberRun (skipn (S i) expression)).
    { rewrite (skipn_nth_Some _ _ _ Hc). simpl. now rewrite Enc. }
    rewrite Hrun in Hsplit, Hstop. simpl in Hsplit, Hstop.
    rewrite Nat.add_succ_r in Hsplit, Hstop.
    rewrite Hsplit. simpl lexable. rewrite Edig.
    rewrite lexable_run.
    rewrite (lexable_after_run true _ Hstop).
    apply IH. lia. }
  rewrite (skipn_nth_Some _ _ _ Hc). simpl. rewrite Edig, Ews. simpl.
  destruct (Ascii.eqb c ".") eqn:Edot.
  { destruct (Hdot eq_refl) as (-> & -> & ->). simpl.
    exists c. repeat split; [exact Hin |].
    unfold isStray. rewrite Ews, Edig.
    now destruct (Hdot eq_refl) as (-> & -> & ->). }
  destruct (isOperatorChar c) eqn:Eop; [simpl; apply IH; lia |].
  destruct (Ascii.eqb c "(") eqn:Elp; [simpl; apply IH; lia |].
  destruct (Ascii.eqb c ")") eqn:Erp; [simpl; apply IH; lia |].
  simpl. exists c. repeat split; [exact Hin |].
  unfold isStray. now rewrite Ews, Edig, Eop, Elp, Erp.
Qed.

Lemma tokenize_loop_blank (fuel : nat) :
  forall i tokens, List.length expression - i < fuel ->
  forallb isWhitespace expression = true ->
  tokenize_loop fuel expression i tokens = Ok tokens.
Proof.
  induction fuel as [| fuel IH]; intros i tokens Hfuel Hblank; [lia |].
  simpl. destruct (nth_error expression i) as [c |] eqn:Hc; [| reflexivity].
  assert (Hi : i < List.length expression) by (apply nth_error_Some; congruence).
  rewrite (proj1 (forallb_forall _ _) Hblank c (nth_error_In _ _ Hc)).
  apply IH; [lia | exact Hblank].
Qed.

End TokenizerFacts.

Lemma tokenize_lexable (expression : string) :
  if lexable false (codeUnits expression)
  then exists ts, tokenize expression = Ok ts
  else exists c,
      In c (codeUnits expression) /\ isStray c = true
      /\ tokenize expression
         = Throw ("Invalid character in expression: " ++ String c "")%string.
Proof.
  unfold tokenize.
  pose proof (tokenize_loop_lexable (codeUnits expression)
                (S (List.length (codeUnits expression))) 0 []) as H.
  simpl skipn in H. apply H. lia.
Qed.

Lemma tokenize_returns (expression : string) : tokenize expression <> OutOfFuel.
Proof.
  pose proof (tokenize_lexable expression) as H.
  destruct (lexable false (codeUnits expression)).
  - destruct H as (ts & ->). discriminate.
  - destruct H as (c & _ & _ & ->). discriminate.
Qed.

Lemma tokenize_blank (expression : string) :
  isBlank expression = true -> tokenize expression = Ok [].
Proof.
  intros H. unfold tokenize. apply tokenize_loop_blank; [lia | exact H].
Qed.

(** ** Numeric literals are never dropped

    [parseFloat] on a run that begins with a digit is a number, so the
    test [!isNaN(num)] of the tokenizer always passes. *)

Section NotNaN.

Local Open Scope Z_scope.

Lemma shr_1_nonneg (mrs : shr_record) : 0 <= shr_m mrs -> 0 <= shr_m (shr_1 mrs).
Proof.
  destruct mrs as [m r s]. destruct m as [| p | p]; simpl; intros H; try lia;
    destruct p; simpl; lia.
Qed.

Lemma iter_shr_1_nonneg (p : positive) :
  forall mrs, 0 <= shr_m mrs -> 0 <= shr_m (iter_pos shr_1 p mrs).
Proof.
  induction p as [p IH | p IH |]; intros mrs H; simpl.
  - apply IH, IH. now apply shr_1_nonneg.
  - now apply IH, IH.
  - now apply shr_1_nonneg.
Qed.

Lemma shr_fexp_nonneg (m e : Z) (l : location) :
  0 <= m -> 0 <= shr_m (fst (shr_fexp prec emax m e l)).
Proof.
  intros H. unfold shr_fexp, shr.
  assert (H0 : 0 <= shr_m (shr_record_of_loc m l)) by (destruct l as [| []]; exact H).
  destruct (fexp prec emax (Zdigits2 m + e) - e); simpl; try exact H0.
  now apply iter_shr_1_nonneg.
Qed.

Lemma binary_round_aux_isNaN (sx : bool) (mx ex : Z) (lx : location) :
  0 <= mx -> isNaN (binary_round_aux prec emax sx mx ex lx) = false.
Proof.
  intros H. unfold binary_round_aux.
  pose proof (shr_fexp_nonneg mx ex lx H) as H1.
  destruct (shr_fexp prec emax mx ex lx) as [mrs' e']. simpl in H1.
  assert (H2 : 0 <= round_nearest_even (shr_m mrs') (loc_of_shr_record mrs')).
  { unfold round_nearest_even. destruct (loc_of_shr_record mrs') as [| []]; try lia.
    destruct (Z.even (shr_m mrs')); lia. }
  pose proof (shr_fexp_nonneg _ e' loc_Exact H2) as H3.
  destruct (shr_fexp prec emax _ e' loc_Exact) as [mrs'' e'']. simpl in H3.
  destruct (shr_m mrs''); try reflexivity; [| lia].
  now destruct (e'' <=? emax - prec).
Qed.

Lemma ofRatio_isNaN (p q : Z) : 0 <= p -> 0 < q -> isNaN (ofRatio p q) = false.
Proof.
  intros Hp Hq. unfold ofRatio.
  destruct p as [| p | p]; [| | lia]; destruct q as [| q | q]; try lia; [reflexivity |].
  unfold div, SFdiv, SFdiv_core_binary.
  match goal with
  | |- context [Z.div_eucl ?a ?b] =>
      pose proof (Z.div_pos a b) as Hdiv; unfold Z.div in Hdiv;
      destruct (Z.div_eucl a b) as [quo rem]
  end.
  apply binary_round_aux_isNaN. apply Hdiv; [| lia].
  match goal with
  | |- 0 <= match ?s with _ => _ end => destruct s; try lia
  end.
  apply Z.shiftl_nonneg. lia.
Qed.

End NotNaN.


Lemma takeDigits_digits (cs : list ascii) :
  Forall (fun c => isDigit c = true) (fst (takeDigits cs)).
Proof.
  induction cs as [| c cs IH]; simpl; [constructor |].
  destruct (isDigit c) eqn:E; [| constructor].
  destruct (takeDigits cs) as [ds rest]. simpl in *. now constructor.
Qed.

Lemma digitValue_nonneg (c : ascii) : isDigit c = true -> (0 <= digitValue c)%Z.
Proof.
  unfold isDigit, digitValue. intros H. apply andb_prop in H. destruct H as (H & _).
  apply N.leb_le in H. lia.
Qed.

Lemma decimalValue_nonneg (ds : list ascii) :
  Forall (fun c => isDigit c = true) ds -> (0 <= decimalValue ds)%Z.
Proof.
  unfold decimalValue.
  assert (H : forall acc, (0 <= acc)%Z -> Forall (fun c => isDigit c = true) ds ->
                          (0 <= fold_left (fun acc c => 10 * acc + digitValue c) ds acc)%Z).
  { induction ds as [| c ds IH]; intros acc Hacc Hds; cbn [fold_left]; [exact Hacc |].
    inversion Hds as [| c' ds' Hc Hds']; subst.
    apply IH; [| exact Hds']. pose proof (digitValue_nonneg c Hc). lia. }
  apply H. lia.
Qed.

Lemma parseFloat_isNaN (c : ascii) (cs : list ascii) :
  isDigit c = true ->
  isNaN (parseFloat (string_of_list_ascii (c :: cs))) = false.
Proof.
  intros Hc. unfold parseFloat, codeUnits.
  rewrite list_ascii_of_string_of_list_ascii.
  pose proof (takeDigits_digits (c :: cs)) as Hwhole.
  destruct (takeDigits (c :: cs)) as [whole rest] eqn:E.
  simpl in E. rewrite Hc in E. destruct (takeDigits cs) as [ds rest'].
  injection E as <- <-. simpl fst in Hwhole.
  set (fraction := match rest' with
                   | [] => []
                   | c0 :: rest'' => if Ascii.eqb c0 "." then fst (takeDigits rest'') else []
                   end).
  assert (Hfraction : Forall (fun c => isDigit c = true) fraction).
  { unfold fraction. destruct rest' as [| c0 rest'']; [constructor |].
    destruct (Ascii.eqb c0 "."); [apply takeDigits_digits | constructor]. }
  change ((c :: ds) ++ fraction) with (c :: (ds ++ fraction)).
  cbv iota. apply ofRatio_isNaN.
  - apply decimalValue_nonneg. change (c :: ds ++ fraction) with ((c :: ds) ++ fraction).
    apply Forall_app. now split.
  - apply Z.pow_pos_nonneg; lia.
Qed.

Section TokensNonEmpty.

Variable expression : list ascii.

Lemma tokenize_loop_keeps (fuel : nat) :
  forall i tokens ts,
  tokenize_loop fuel expression i tokens = Ok ts -> tokens <> [] -> ts <> [].
Proof.
  induction fuel as [| fuel IH]; intros i tokens ts; [discriminate |].
  assert (Hpush : forall x : Token, tokens ++ [x] <> [])
    by (intros x E; apply app_eq_nil in E; destruct E; discriminate).
  cbn [tokenize_loop].
  destruct (nth_error expression i) as [c |]; [| intros H; injection H as <-; auto].
  destruct (isWhitespace c); [apply IH |].
  destruct (isDigit c).
  { destruct (scanNumber _ _ _ _) as [[numStr i'] | |]; cbn [bind]; try discriminate.
    intros H Hne. apply IH in H; [exact H |].
    destruct (isNaN (parseFloat numStr)); [exact Hne | apply Hpush]. }
  destruct (isOperatorChar c); [intros H _; apply IH in H; [exact H | apply Hpush] |].
  destruct (Ascii.eqb c "("); [intros H _; apply IH in H; [exact H | apply Hpush] |].
  destruct (Ascii.eqb c ")"); [intros H _; apply IH in H; [exact H | apply Hpush] |].
  discriminate.
Qed.

Lemma tokenize_loop_empty (fuel : nat) :
  forall i,
  tokenize_loop fuel expression i [] = Ok [] ->
  forallb isWhitespace (skipn i expression) = true.
Proof.
  induction fuel as [| fuel IH]; intros i; [discriminate |].
  cbn [tokenize_loop]. destruct (nth_error expression i) as [c |] eqn:Hc.
  2:{ intros _. now rewrite (skipn_nth_None _ _ Hc). }
  rewrite (skipn_nth_Some _ _ _ Hc). cbn [forallb].
  destruct (isWhitespace c); [intros H; now apply IH in H |].
  assert (Hno : forall i' x, tokenize_loop fuel expression i' ([] ++ [x]) <> Ok []).
  { intros i' x H. apply tokenize_loop_keeps in H; [now elim H | discriminate]. }
  destruct (isDigit c) eqn:Edig.
  { assert (Hi : i < List.length expression) by (apply nth_error_Some; congruence).
    rewrite scanNumber_run by lia. cbn [bind].
    rewrite (skipn_nth_Some _ _ _ Hc). cbn [numberRun]. unfold isNumberChar. rewrite Edig.
    cbn [orb]. cbn [append]. 
    change (String c (string_of_list_ascii (numberRun (skipn (S i) expression))))
      with (string_of_list_ascii (c :: numberRun (skipn (S i) expression))).
    rewrite (parseFloat_isNaN c _ Edig). intros H. now apply Hno in H. }
  destruct (isOperatorChar c); [intros H; now apply Hno in H |].
  destruct (Ascii.eqb c "("); [intros H; now apply Hno in H |].
  destruct (Ascii.eqb c ")"); [intros H; now apply Hno in H |].
  discriminate.
Qed.

End TokensNonEmpty.

Lemma tokenize_empty (expression : string) :
  tokenize expression = Ok [] -> isBlank expression = true.
Proof.
  unfold tokenize, isBlank. intros H. now apply tokenize_loop_empty in H.
Qed.

Lemma lexable_factors (inNumber : bool) (cs : list ascii) :
  lexable inNumber cs = forallb isListedChar cs && dotsInNumbers inNumber cs.
Proof.
  revert inNumber. induction cs as [| c cs IH]; intros inNumber; simpl; [reflexivity |].
  unfold isListedChar. destruct (char_classes c) as (Hws & Hdig & Hdot).
  destruct (isDigit c) eqn:Edig.
  - rewrite IH. now rewrite orb_true_r.
  - destruct (Ascii.eqb c ".") eqn:Edot.
    + rewrite IH. rewrite !orb_true_r. simpl.
      destruct inNumber; simpl; [reflexivity | now rewrite andb_false_r].
    + rewrite IH. rewrite !orb_false_r.
      now rewrite <- andb_assoc, <- !orb_assoc.
Qed.

(** ** The entry points on a tokenized input *)

Lemma tokens_not_blank (expression : string) (ts : list Token) :
  tokenize expression = Ok ts -> ts <> [] -> isBlank expression = false.
Proof.
  intros Htok Hne. destruct (isBlank expression) eqn:E; [| reflexivity].
  rewrite (tokenize_blank _ E) in Htok. injection Htok as <-. now elim Hne.
Qed.

Lemma length_eqb_0 {A : Type} (l : list A) :
  l <> [] -> Nat.eqb (List.length l) 0 = false.
Proof. destruct l; [intros H; now elim H | reflexivity]. Qed.

Lemma evaluate_tokens (expression : string) (ts : list Token) :
  tokenize expression = Ok ts -> ts <> [] ->
  evaluate expression = rewrap (ast <- parse ts ;; evaluateNode ast).
Proof.
  intros Htok Hne. unfold evaluate.
  rewrite (tokens_not_blank _ _ Htok Hne), Htok. simpl.
  now rewrite (length_eqb_0 _ Hne).
Qed.

Lemma isValidExpression_tokens (expression : string) (ts : list Token) :
  tokenize expression = Ok ts -> ts <> [] ->
  isValidExpression expression =
  catchFalse
    match countParens ts 0 with
    | None => Ok false
    | Some parenCount =>
        if negb (parenCount =? 0)%Z then Ok false
        else _ <- parse ts ;; Ok true
    end.
Proof.
  intros Htok Hne. unfold isValidExpression.
  rewrite (tokens_not_blank _ _ Htok Hne), Htok. simpl.
  now rewrite (length_eqb_0 _ Hne).
Qed.

(** A phrase of the grammar followed by tokens that do not continue it is
    parsed as its tree; the tokens after it are left unread. *)
Lemma derives_parse_prefix (ts rest : list Token) (t : ExpressionNode) :
  Derives Additive ts t -> endsAdditive rest = true ->
  parse (ts ++ rest) = Ok t.
Proof.
  intros H Hend. apply derives_parsed in H. simpl in H.
  assert (Hseg : segment (ts ++ rest) 0 ts).
  { exists [], rest. split; reflexivity. }
  assert (Hnth : nth_error (ts ++ rest) (0 + List.length ts) = hd_error rest).
  { simpl. rewrite nth_error_app2 by lia. rewrite Nat.sub_diag. now destruct rest. }
  destruct (H (ts ++ rest) 0 (Ok (t, 0 + List.length ts)) 1 Hseg) as (fuel & Hfuel).
  - unfold notMulDivAt. rewrite Hnth. destruct rest as [| token rest]; [reflexivity |].
    simpl in *. now apply andb_prop in Hend.
  - rewrite parseAddSub_loop_S, Hnth. destruct rest as [| token rest]; [reflexivity |].
    simpl in *. apply andb_prop in Hend. destruct Hend as (_ & Hend).
    unfold isAddSubToken in Hend. apply negb_true_iff in Hend. now rewrite Hend.
  - discriminate.
  - now apply parse_of_fuel in Hfuel.
Qed.

(** A group that is not closed. *)
Lemma derives_parse_unclosed (ts : list Token) (t : ExpressionNode) :
  Derives Additive ts t ->
  parse (lparenToken :: ts) = Throw "Missing closing parenthesis".
Proof.
  intros H. apply derives_parsed in H. simpl in H.
  set (tokens := lparenToken :: ts).
  assert (Hseg : segment tokens 1 ts).
  { exists [lparenToken], []. split; [unfold tokens; simpl; now rewrite app_nil_r | reflexivity]. }
  assert (Hnone : nth_error tokens (1 + List.length ts) = None)
    by (apply nth_error_None; unfold tokens; simpl; lia).
  destruct (H tokens 1 (Ok (t, 1 + List.length ts)) 1 Hseg) as (fuel & Hfuel).
  - unfold notMulDivAt. now rewrite Hnone.
  - rewrite parseAddSub_loop_S. now rewrite Hnone.
  - discriminate.
  - apply (parse_throw_of_fuel tokens (S (S (S fuel)))).
    rewrite parseAddSub_S, parseMulDiv_S, parsePrimary_S.
    unfold tokens at 1. simpl nth_error. simpl TokenType_eqb. cbv iota.
    rewrite Hfuel. simpl. simpl in Hnone. now rewrite Hnone.
Qed.

(** ** Evaluation *)

Lemma strictEq_zero (z : number) :
  strictEq z (ofZ 0) = true <-> exists s, z = S754_zero s.
Proof.
  split.
  - destruct z as [s | s | | s m e]; try discriminate.
    + intros _. now exists s.
    + destruct s; discriminate.
    + destruct s; discriminate.
  - intros (s & ->). reflexivity.
Qed.

Lemma neg_involutive (x : number) : neg (neg x) = x.
Proof. destruct x; simpl; now rewrite ?negb_involutive. Qed.

Lemma evaluateNode_returns (node : ExpressionNode) : evaluateNode node <> OutOfFuel.
Proof.
  induction node as [v | op t IH | op t1 IH1 t2 IH2]; cbn [evaluateNode bind].
  - discriminate.
  - destruct (evaluateNode t); cbn [evaluateNode bind]; [| discriminate | contradiction].
    destruct op; discriminate.
  - destruct (evaluateNode t1); cbn [evaluateNode bind]; [| discriminate | contradiction].
    destruct (evaluateNode t2); cbn [evaluateNode bind]; [| discriminate | contradiction].
    destruct op; try discriminate.
    destruct (strictEq _ _); discriminate.
Qed.

Lemma evaluateNode_throws (node : ExpressionNode) (message : string) :
  evaluateNode node = Throw message ->
  message = "Division by zero"
  /\ exists dividend divisor z,
      Subtree (BinaryNode OpDiv dividend divisor) node
      /\ evaluateNode divisor = Ok z /\ strictEq z (ofZ 0) = true.
Proof.
  induction node as [v | op t IH | op t1 IH1 t2 IH2]; cbn [evaluateNode bind].
  - discriminate.
  - destruct (evaluateNode t) as [v | m |] eqn:E; cbn [evaluateNode bind].
    + destruct op; discriminate.
    + intros H. injection H as <-. destruct (IH eq_refl) as (-> & l & r & z & Hs & Hz).
      split; [reflexivity |]. exists l, r, z. split; [now constructor | exact Hz].
    + discriminate.
  - destruct (evaluateNode t1) as [v1 | m |] eqn:E1; cbn [evaluateNode bind].
    + destruct (evaluateNode t2) as [v2 | m |] eqn:E2; cbn [evaluateNode bind].
      * destruct op; try discriminate.
        destruct (strictEq v2 (ofZ 0)) eqn:Ez; [| discriminate].
        intros H. injection H as <-. split; [reflexivity |].
        exists t1, t2, v2. repeat split; [constructor | exact E2 | exact Ez].
      * intros H. injection H as <-. destruct (IH2 eq_refl) as (-> & l & r & z & Hs & Hz).
        split; [reflexivity |]. exists l, r, z. split; [now apply Sub_right | exact Hz].
      * discriminate.
    + intros H. injection H as <-. destruct (IH1 eq_refl) as (-> & l & r & z & Hs & Hz).
      split; [reflexivity |]. exists l, r, z. split; [now apply Sub_left | exact Hz].
    + discriminate.
Qed.

Lemma evaluateNode_negations (n : nat) (t : ExpressionNode) :
  evaluateNode (negations n t) =
  (v <- evaluateNode t ;; Ok (if Nat.even n then v else neg v)).
Proof.
  induction n as [| n IH].
  - simpl. now destruct (evaluateNode t).
  - change (negations (S n) t) with (UnaryNode OpSub (negations n t)).
    cbn [evaluateNode]. rewrite IH, Nat.even_succ, <- Nat.negb_even.
    destruct (evaluateNode t) as [v | m |]; simpl; try reflexivity.
    destruct (Nat.even n); simpl; [reflexivity | now rewrite neg_involutive].
Qed.

Lemma derives_negations (n : nat) (ts : list Token) (t : ExpressionNode) :
  Derives Primary ts t ->
  Derives Primary (repeat (operatorToken "-") n ++ ts) (negations n t).
Proof.
  intros H. induction n as [| n IH]; simpl; [exact H | now constructor].
Qed.

(** ** The balance scan *)

Lemma countParens_depth (tokens : list Token) :
  forall parenCount : Z,
  match countParens tokens parenCount with
  | None => exists n, (parenCount + depth (firstn n tokens) < 0)%Z
  | Some final =>
      final = (parenCount + depth tokens)%Z
      /\ ((0 <= parenCount)%Z ->
          forall n, (0 <= parenCount + depth (firstn n tokens))%Z)
  end.
Proof.
  induction tokens as [| token rest IH]; intros parenCount.
  - cbn [countParens depth]. split; [lia |].
    intros Hp n. destruct n; cbn [firstn depth]; lia.
  - assert (Hstep : forall d : Z,
               d = match type token with Tlparen => 1 | Trparen => -1 | _ => 0 end%Z ->
               ((d = -1)%Z -> (0 <= parenCount - 1)%Z) ->
               match countParens rest (parenCount + d) with
               | None => exists n, (parenCount + depth (firstn n (token :: rest)) < 0)%Z
               | Some final =>
                   final = (parenCount + depth (token :: rest))%Z
                   /\ ((0 <= parenCount)%Z ->
                       forall n, (0 <= parenCount + depth (firstn n (token :: rest)))%Z)
               end).
    { intros d Hd Hclose. specialize (IH (parenCount + d)%Z).
      destruct (countParens rest (parenCount + d)) as [final |].
      - destruct IH as (-> & IH). cbn [depth]. rewrite <- Hd. split; [lia |].
        intros Hp [| n]; cbn [firstn depth]; [lia |]. rewrite <- Hd.
        assert (0 <= parenCount + d)%Z by (destruct (type token); lia).
        specialize (IH ltac:(assumption) n). lia.
      - destruct IH as (n & IH). exists (S n). cbn [firstn depth]. rewrite <- Hd. lia. }
    cbn [countParens]. destruct (type token) eqn:Etype; cbn [TokenType_eqb].
    + pose proof (Hstep 0%Z eq_refl ltac:(lia)) as H0.
      rewrite Z.add_0_r in H0. exact H0.
    + pose proof (Hstep 0%Z eq_refl ltac:(lia)) as H0.
      rewrite Z.add_0_r in H0. exact H0.
    + apply Hstep; [reflexivity | lia].
    + destruct (parenCount - 1 <? 0)%Z eqn:Eneg.
      * exists 1. cbn [firstn depth]. rewrite Etype. apply Z.ltb_lt in Eneg. lia.
      * apply Z.ltb_ge in Eneg.
        change (parenCount - 1)%Z with (parenCount + -1)%Z.
        apply Hstep; [reflexivity | lia].
Qed.

Lemma countParens_None (tokens : list Token) :
  countParens tokens 0 = None <-> goesNegative tokens.
Proof.
  pose proof (countParens_depth tokens 0) as H. unfold goesNegative.
  destruct (countParens tokens 0) as [final |].
  - destruct H as (_ & H). split; [discriminate |].
    intros (n & Hn). specialize (H ltac:(lia) n). lia.
  - split; [| reflexivity]. intros _. destruct H as (n & Hn). exists n. lia.
Qed.

Lemma countParens_Some (tokens : list Token) (final : Z) :
  countParens tokens 0 = Some final -> final = depth tokens.
Proof.
  pose proof (countParens_depth tokens 0) as H. intros E. rewrite E in H.
  destruct H as (-> & _). lia.
Qed.

(** ** Precedence, associativity, grouping *)

Lemma derives_multiplicative_op (op : Operator) (ts1 ts2 : list Token)
      (t1 t2 : ExpressionNode) :
  isAdditive op = false ->
  Derives Multiplicative ts1 t1 -> Derives Primary ts2 t2 ->
  Derives Multiplicative (ts1 ++ operatorToken (symbol op) :: ts2) (BinaryNode op t1 t2).
Proof. destruct op; try discriminate; intros _; now constructor. Qed.

Lemma derives_additive_op (op : Operator) (ts1 ts2 : list Token)
      (t1 t2 : ExpressionNode) :
  isAdditive op = true ->
  Derives Additive ts1 t1 -> Derives Multiplicative ts2 t2 ->
  Derives Additive (ts1 ++ operatorToken (symbol op) :: ts2) (BinaryNode op t1 t2).
Proof. destruct op; try discriminate; intros _; now constructor. Qed.

Lemma app_cons_assoc {A : Type} (l1 l2 l3 : list A) (x y : A) :
  l1 ++ x :: l2 ++ y :: l3 = (l1 ++ x :: l2) ++ y :: l3.
Proof. now rewrite <- app_assoc. Qed.

(** C1: On every valid arithmetic input (a string whose tokens form a
    phrase of the grammar) [evaluate] returns the value of the tree the
    grammar gives: multiplication and division bind tighter than addition
    and subtraction, and operators of one tier group from the left.  In
    particular ["2 + 3 * 4"] gives 14, ["10 - 2 * 3"] gives 4 and
    ["24 / 2 / 3"] gives 4. *)
Theorem evaluate_precedence_and_associativity :
  (forall expression ts t,
      tokenize expression = Ok ts -> Derives Additive ts t ->
      evaluate expression = rewrap (evaluateNode t))
  /\ (forall low high pa pb pc ta tb tc,
         isAdditive low = true -> isAdditive high = false ->
         Derives Primary pa ta -> Derives Primary pb tb -> Derives Primary pc tc ->
         parse (pa ++ operatorToken (symbol low) :: pb
                   ++ operatorToken (symbol high) :: pc)
         = Ok (BinaryNode low ta (BinaryNode high tb tc))
         /\ parse (pa ++ operatorToken (symbol high) :: pb
                      ++ operatorToken (symbol low) :: pc)
            = Ok (BinaryNode low (BinaryNode high ta tb) tc))
  /\ (forall op1 op2 pa pb pc ta tb tc,
         isAdditive op1 = isAdditive op2 ->
         Derives Primary pa ta -> Derives Primary pb tb -> Derives Primary pc tc ->
         parse (pa ++ operatorToken (symbol op1) :: pb
                   ++ operatorToken (symbol op2) :: pc)
         = Ok (BinaryNode op2 (BinaryNode op1 ta tb) tc))
  /\ evaluate "2 + 3 * 4" = Ok (ofZ 14)
  /\ evaluate "10 - 2 * 3" = Ok (ofZ 4)
  /\ evaluate "24 / 2 / 3" = Ok (ofZ 4).
Proof.
  split; [| split; [| split]].
  - intros expression ts t Htok Hd.
    rewrite (evaluate_tokens _ _ Htok (derives_nonempty _ _ _ Hd)).
    now rewrite (derives_parse _ _ Hd).
  - intros low high pa pb pc ta tb tc Hlow Hhigh Ha Hb Hc. split.
    + apply derives_parse.
      apply derives_additive_op; [exact Hlow | now do 2 constructor |].
      apply derives_multiplicative_op; [exact Hhigh | now constructor | exact Hc].
    + apply derives_parse. rewrite app_cons_assoc.
      apply derives_additive_op; [exact Hlow | | now constructor].
      constructor.
      apply derives_multiplicative_op; [exact Hhigh | now constructor | exact Hb].
  - intros op1 op2 pa pb pc ta tb tc Htier Ha Hb Hc.
    apply derives_parse. rewrite app_cons_assoc.
    destruct (isAdditive op2) eqn:E2.
    + apply derives_additive_op; [exact E2 | | now constructor].
      apply derives_additive_op; [exact Htier | now do 2 constructor | now constructor].
    + constructor.
      apply derives_multiplicative_op; [exact E2 | | exact Hc].
      apply derives_multiplicative_op; [exact Htier | now constructor | exact Hb].
  - repeat split; vm_compute; reflexivity.
Qed.

Lemma evaluate_precedence_and_associativity_witness :
  evaluate "1 + 2 * 3" = Ok (ofZ 7).
Proof.
  apply (proj1 evaluate_precedence_and_associativity "1 + 2 * 3"
           [numberToken (ofZ 1); operatorToken "+"; numberToken (ofZ 2);
            operatorToken "*"; numberToken (ofZ 3)]
           (BinaryNode OpAdd (NumberNode (ofZ 1))
              (BinaryNode OpMul (NumberNode (ofZ 2)) (NumberNode (ofZ 3))))).
  - vm_compute. reflexivity.
  - apply (D_add [numberToken (ofZ 1)]
             [numberToken (ofZ 2); operatorToken "*"; numberToken (ofZ 3)]).
    + do 3 constructor.
    + apply (D_mul [numberToken (ofZ 2)] [numberToken (ofZ 3)]).
      * do 2 constructor.
      * constructor.
Defined.

(** A group is only ever parsed up to a [)]. *)
Lemma group_ends_with_closing (tokens : list Token) (fuel c : nat) (opening : Token)
      (t : ExpressionNode) (c' : nat) :
  nth_error tokens c = Some opening -> type opening = Tlparen ->
  parsePrimary tokens fuel c = Ok (t, c') ->
  exists c'' closing,
    c' = S c'' /\ nth_error tokens c'' = Some closing /\ type closing = Trparen.
Proof.
  intros Hopen Htype.
  destruct fuel as [| fuel]; [discriminate |].
  rewrite parsePrimary_S, Hopen, Htype. cbn [TokenType_eqb]. intros H.
  apply bind_Ok_inv in H. destruct H as ([expr c''] & _ & H).
  destruct (nth_error tokens c'') as [closing |] eqn:E; [| discriminate].
  destruct (type closing) eqn:Eclosing; try discriminate.
  injection H as _ <-. now exists c'', closing.
Qed.

(** Input that begins with [(] and has no [)] does not parse. *)
Lemma unclosed_start_throws (ts : list Token) :
  (forall token, In token ts -> type token <> Trparen) ->
  exists message, parse (lparenToken :: ts) = Throw message.
Proof.
  intros Hnone. set (tokens := lparenToken :: ts).
  pose proof (parse_returns tokens) as Hret.
  destruct (parse tokens) as [t | message |] eqn:Hparse;
    [exfalso | now exists message | contradiction].
  unfold parse in Hparse. apply bind_Ok_inv in Hparse.
  destruct Hparse as ([ast c] & H & _).
  unfold parseFuel in H. cbn [Nat.mul Nat.add] in H.
  replace (List.length tokens + (List.length tokens + (List.length tokens + 0)) + 3)
    with (S (S (S (3 * List.length tokens)))) in H by lia.
  rewrite parseAddSub_S in H. apply bind_Ok_inv in H.
  destruct H as ([node c1] & H & _).
  rewrite parseMulDiv_S in H. apply bind_Ok_inv in H.
  destruct H as ([node' c2] & H & _).
  destruct (group_ends_with_closing tokens _ 0 lparenToken node' c2 eq_refl eq_refl H)
    as (c'' & closing & _ & Hnth & Hclosing).
  apply nth_error_In in Hnth. destruct Hnth as [<- | Hin]; [discriminate |].
  exact (Hnone closing Hin Hclosing).
Qed.

(** C2: A parenthesized group is parsed as the tree of its content, so it
    overrides precedence and nests: ["(2 + 3) * 4"] gives 20 and
    ["((2 + 3) * 4) / 2"] gives 10.  When, after the expression that
    follows a [(], the next token is not [)], the parse fails with
    "Missing closing parenthesis"; when that expression itself fails to
    parse, its own error is what the group fails with.  A group is only
    ever parsed up to a [)], and input that begins with [(] and has no
    [)] never parses.  [evaluate("(2 + 3")] fails with "Missing closing
    parenthesis", ["(2 +"] and ["("] with "Unexpected end of expression",
    ["( * 2"] with "Unexpected token: *". *)
Theorem parentheses_group_and_must_close :
  (forall ts t,
      Derives Additive ts t ->
      parse (lparenToken :: ts ++ [rparenToken]) = Ok t)
  /\ (forall pa pb pc ta tb tc,
         Derives Primary pa ta -> Derives Primary pb tb -> Derives Primary pc tc ->
         parse ((lparenToken :: pa ++ operatorToken "+" :: pb ++ [rparenToken])
                  ++ operatorToken "*" :: pc)
         = Ok (BinaryNode OpMul (BinaryNode OpAdd ta tb) tc))
  /\ (forall tokens fuel c opening expr c',
         nth_error tokens c = Some opening -> type opening = Tlparen ->
         parseAddSub tokens fuel (S c) = Ok (expr, c') ->
         (forall closing, nth_error tokens c' = Some closing -> type closing <> Trparen) ->
         parsePrimary tokens (S fuel) c = Throw "Missing closing parenthesis")
  /\ (forall ts t,
         Derives Additive ts t ->
         parse (lparenToken :: ts) = Throw "Missing closing parenthesis")
  /\ (forall tokens fuel c opening t c',
         nth_error tokens c = Some opening -> type opening = Tlparen ->
         parsePrimary tokens fuel c = Ok (t, c') ->
         exists c'' closing,
           c' = S c'' /\ nth_error tokens c'' = Some closing
           /\ type closing = Trparen)
  /\ (forall tokens fuel c opening message,
         nth_error tokens c = Some opening -> type opening = Tlparen ->
         parseAddSub tokens fuel (S c) = Throw message ->
         parsePrimary tokens (S fuel) c = Throw message)
  /\ (forall ts,
         (forall token, In token ts -> type token <> Trparen) ->
         exists message, parse (lparenToken :: ts) = Throw message)
  /\ evaluate "(2 + 3) * 4" = Ok (ofZ 20)
  /\ evaluate "((2 + 3) * 4) / 2" = Ok (ofZ 10)
  /\ evaluate "(2 + 3" = Throw "Calculation error: Missing closing parenthesis"
  /\ evaluate "(2 +" = Throw "Calculation error: Unexpected end of expression"
  /\ evaluate "(" = Throw "Calculation error: Unexpected end of expression"
  /\ evaluate "( * 2" = Throw "Calculation error: Unexpected token: *".
Proof.
  split; [| split; [| split; [| split; [| split; [| split; [| split]]]]]].
  - intros ts t Hd. apply derives_parse. now do 3 constructor.
  - intros pa pb pc ta tb tc Ha Hb Hc. apply derives_parse.
    constructor. apply D_mul; [| exact Hc].
    apply D_primary. rewrite app_cons_assoc.
    apply D_group. apply D_add.
    + apply D_multiplicative, D_primary. exact Ha.
    + apply D_primary. exact Hb.
  - intros tokens fuel c opening expr c' Hopen Htype Hinner Hclose.
    rewrite parsePrimary_S, Hopen, Htype. cbn [TokenType_eqb].
    rewrite Hinner. cbn [bind].
    destruct (nth_error tokens c') as [closing |] eqn:E; [| reflexivity].
    specialize (Hclose closing eq_refl).
    destruct (type closing); try reflexivity. now elim Hclose.
  - intros ts t Hd. now apply derives_parse_unclosed with (t := t).
  - intros tokens fuel c opening t c' Hopen Htype.
    now apply group_ends_with_closing with (opening := opening).
  - intros tokens fuel c opening message Hopen Htype Hinner.
    rewrite parsePrimary_S, Hopen, Htype. cbn [TokenType_eqb].
    rewrite Hinner. reflexivity.
  - exact unclosed_start_throws.
  - repeat split; vm_compute; reflexivity.
Qed.

Lemma parentheses_group_and_must_close_witness :
  parse [lparenToken; numberToken (ofZ 2); operatorToken "+"; numberToken (ofZ 3);
         rparenToken]
  = Ok (BinaryNode OpAdd (NumberNode (ofZ 2)) (NumberNode (ofZ 3))).
Proof.
  apply (proj1 parentheses_group_and_must_close
           [numberToken (ofZ 2); operatorToken "+"; numberToken (ofZ 3)]).
  apply (D_add [numberToken (ofZ 2)] [numberToken (ofZ 3)]); do 3 constructor.
Defined.

(** The parser's contract as the specification words it, a [(] without its
    [)] fails with the missing-parenthesis error, does not hold of every
    such input: when the expression after the [(] does not parse, the
    failure is that of the expression. *)
Lemma unclosed_group_reports_inner_error :
  (exists ts,
      tokenize "(2 +" = Ok (lparenToken :: ts)
      /\ (forall token, In token ts -> type token <> Trparen))
  /\ evaluate "(2 +" = Throw "Calculation error: Unexpected end of expression"
  /\ evaluate "( * 2" = Throw "Calculation error: Unexpected token: *".
Proof.
  split; [| split; vm_compute; reflexivity].
  exists [numberToken (ofZ 2); operatorToken "+"]. split; [vm_compute; reflexivity |].
  intros token [<- | [<- | []]]; discriminate.
Qed.

(** C3: Evaluating a tree fails only by a division whose right operand is
    zero ([+0] or [-0]): a failure carries the message "Division by zero"
    and comes from such a division inside the tree, no other operation
    fails, and every such division does fail.  [evaluate("5 / 0")] fails
    with that message behind the prefix "Calculation error: ". *)
Theorem evaluation_fails_only_on_division_by_zero :
  (forall node message,
      evaluateNode node = Throw message ->
      message = "Division by zero"
      /\ exists dividend divisor z,
          Subtree (BinaryNode OpDiv dividend divisor) node
          /\ evaluateNode divisor = Ok z /\ strictEq z (ofZ 0) = true)
  /\ (forall node, evaluateNode node <> OutOfFuel)
  /\ (forall z, strictEq z (ofZ 0) = true <-> exists s, z = S754_zero s)
  /\ (forall op t1 t2 x y,
         evaluateNode t1 = Ok x -> evaluateNode t2 = Ok y ->
         evaluateNode (BinaryNode op t1 t2) =
         match op with
         | OpAdd => Ok (add x y)
         | OpSub => Ok (sub x y)
         | OpMul => Ok (mul x y)
         | OpDiv => if strictEq y (ofZ 0) then Throw "Division by zero" else Ok (div x y)
         end)
  /\ (forall op t x,
         evaluateNode t = Ok x ->
         exists v, evaluateNode (UnaryNode op t) = Ok v)
  /\ evaluate "5 / 0" = Throw "Calculation error: Division by zero".
Proof.
  split; [| split; [| split; [| split; [| split]]]].
  - exact evaluateNode_throws.
  - exact evaluateNode_returns.
  - exact strictEq_zero.
  - intros op t1 t2 x y H1 H2. cbn [evaluateNode]. rewrite H1, H2. cbn [bind].
    now destruct op.
  - intros op t x H. cbn [evaluateNode]. rewrite H. cbn [bind].
    destruct op; eexists; reflexivity.
  - vm_compute. reflexivity.
Qed.

Lemma evaluation_fails_only_on_division_by_zero_witness :
  "Division by zero" = "Division by zero"
  /\ exists dividend divisor z,
      Subtree (BinaryNode OpDiv dividend divisor)
        (BinaryNode OpAdd (NumberNode (ofZ 1))
           (BinaryNode OpDiv (NumberNode (ofZ 5)) (NumberNode (ofZ 0))))
      /\ evaluateNode divisor = Ok z /\ strictEq z (ofZ 0) = true.
Proof.
  apply (proj1 evaluation_fails_only_on_division_by_zero
           (BinaryNode OpAdd (NumberNode (ofZ 1))
              (BinaryNode OpDiv (NumberNode (ofZ 5)) (NumberNode (ofZ 0))))).
  vm_compute. reflexivity.
Defined.

(** ** Validation *)

Lemma isValidExpression_returns (expression : string) :
  exists b, isValidExpression expression = Ok b.
Proof.
  unfold isValidExpression.
  destruct (isBlank expression); [now exists true |].
  pose proof (tokenize_returns expression) as Htok.
  destruct (tokenize expression) as [ts | m |]; cbn [bind catchFalse];
    [| now exists false | contradiction].
  destruct (Nat.eqb (List.length ts) 0); [now exists true |].
  destruct (countParens ts 0) as [final |]; [| now exists false].
  destruct (negb (final =? 0)%Z); [now exists false |].
  pose proof (parse_returns ts) as Hparse.
  destruct (parse ts) as [t | m |]; cbn [bind];
    [now exists true | now exists false | contradiction].
Qed.

Lemma isValidExpression_cases (expression : string) :
  (exists b, isValidExpression expression = Ok b)
  /\ (forall message,
         tokenize expression = Throw message ->
         isValidExpression expression = Ok false)
  /\ (forall ts,
         tokenize expression = Ok ts -> goesNegative ts ->
         isValidExpression expression = Ok false)
  /\ (forall ts,
         tokenize expression = Ok ts -> depth ts <> 0%Z ->
         isValidExpression expression = Ok false)
  /\ (forall ts message,
         isBlank expression = false ->
         tokenize expression = Ok ts -> parse ts = Throw message ->
         isValidExpression expression = Ok false)
  /\ (forall ts t,
         isBlank expression = false ->
         tokenize expression = Ok ts ->
         ~ goesNegative ts -> depth ts = 0%Z -> parse ts = Ok t ->
         isValidExpression expression = Ok true)
  /\ (isBlank expression = true -> isValidExpression expression = Ok true).
Proof.
  split; [apply isValidExpression_returns |].
  assert (Hnonempty : forall ts, isBlank expression = false ->
                                 tokenize expression = Ok ts -> ts <> []).
  { intros ts Hblank Htok ->. apply tokenize_empty in Htok. congruence. }
  split; [| split; [| split; [| split; [| split]]]].
  - intros message Htok. unfold isValidExpression.
    destruct (isBlank expression) eqn:E.
    + rewrite (tokenize_blank _ E) in Htok. discriminate.
    + now rewrite Htok.
  - intros ts Htok Hneg.
    assert (Hne : ts <> []).
    { intros ->. destruct Hneg as (n & Hn). destruct n; simpl in Hn; lia. }
    rewrite (isValidExpression_tokens _ _ Htok Hne).
    apply countParens_None in Hneg. now rewrite Hneg.
  - intros ts Htok Hdepth.
    assert (Hne : ts <> []) by (intros ->; now elim Hdepth).
    rewrite (isValidExpression_tokens _ _ Htok Hne).
    destruct (countParens ts 0) as [final |] eqn:E; [| reflexivity].
    apply countParens_Some in E. subst final.
    apply Z.eqb_neq in Hdepth. now rewrite Hdepth.
  - intros ts message Hblank Htok Hparse.
    rewrite (isValidExpression_tokens _ _ Htok (Hnonempty _ Hblank Htok)), Hparse.
    destruct (countParens ts 0) as [final |]; [| reflexivity].
    now destruct (negb (final =? 0)%Z).
  - intros ts t Hblank Htok Hneg Hdepth Hparse.
    rewrite (isValidExpression_tokens _ _ Htok (Hnonempty _ Hblank Htok)).
    destruct (countParens ts 0) as [final |] eqn:E.
    + apply countParens_Some in E. subst final. rewrite Hdepth, Hparse. reflexivity.
    + apply countParens_None in E. now elim Hneg.
  - intros Hblank. unfold isValidExpression. now rewrite Hblank.
Qed.

(** C4: [isValidExpression] always returns a boolean.  It returns [false]
    when tokenization fails, when the running parenthesis depth goes
    negative, when the depth is not zero at the end, and when the parse
    that follows fails; otherwise it returns [true].  (The parse follows
    on every input that is not empty or white space only, which is valid
    by the first test.)  ["(2 + 3"], ["()"] and
    ["2 + # 3"] are invalid. *)
Theorem isValidExpression_decides :
  (forall expression,
      (exists b, isValidExpression expression = Ok b)
      /\ (forall message,
             tokenize expression = Throw message ->
             isValidExpression expression = Ok false)
      /\ (forall ts,
             tokenize expression = Ok ts -> goesNegative ts ->
             isValidExpression expression = Ok false)
      /\ (forall ts,
             tokenize expression = Ok ts -> depth ts <> 0%Z ->
             isValidExpression expression = Ok false)
      /\ (forall ts message,
             isBlank expression = false ->
             tokenize expression = Ok ts -> parse ts = Throw message ->
             isValidExpression expression = Ok false)
      /\ (forall ts t,
             isBlank expression = false ->
             tokenize expression = Ok ts ->
             ~ goesNegative ts -> depth ts = 0%Z -> parse ts = Ok t ->
             isValidExpression expression = Ok true)
      /\ (isBlank expression = true -> isValidExpression expression = Ok true))
  /\ isValidExpression "(2 + 3" = Ok false
  /\ isValidExpression "()" = Ok false
  /\ isValidExpression "2 + # 3" = Ok false.
Proof.
  split; [| repeat split; vm_compute; reflexivity].
  exact isValidExpression_cases.
Qed.

Lemma isValidExpression_decides_witness :
  isValidExpression "2 + 3)" = Ok false.
Proof.
  apply (proj1 (proj2 (proj2 (proj1 isValidExpression_decides "2 + 3)")))
           [numberToken (ofZ 2); operatorToken "+"; numberToken (ofZ 3); rparenToken]).
  - vm_compute. reflexivity.
  - exists 4. vm_compute. reflexivity.
Defined.

(** ** Tokenization *)

(** After a run of digits and dots the scan is outside a number again. *)
Lemma offending_run (cs : list ascii) :
  offending true cs = offending false (skipn (List.length (numberRun cs)) cs).
Proof.
  induction cs as [| c cs IH]; [reflexivity |].
  cbn [numberRun]. unfold isNumberChar.
  destruct (isDigit c) eqn:Edig; cbn [orb List.length skipn offending].
  - rewrite Edig. exact IH.
  - destruct (Ascii.eqb c ".") eqn:Edot; cbn [List.length skipn offending].
    + rewrite ?Edig, ?Edot. exact IH.
    + now rewrite ?Edig, ?Edot.
Qed.

Lemma tokensOf_run (cs : list ascii) :
  tokensOf true cs = tokensOf false (skipn (List.length (numberRun cs)) cs).
Proof.
  induction cs as [| c cs IH]; [reflexivity |].
  cbn [numberRun]. unfold isNumberChar.
  destruct (isDigit c) eqn:Edig; cbn [orb List.length skipn tokensOf].
  - rewrite Edig. exact IH.
  - destruct (Ascii.eqb c ".") eqn:Edot; cbn [List.length skipn tokensOf].
    + rewrite ?Edig, ?Edot. exact IH.
    + now rewrite ?Edig, ?Edot.
Qed.

(** The loop of [tokenize] from index [i]: it throws on the first
    offending character of the rest of the input, and otherwise appends
    the tokens of the rest. *)
Lemma tokenize_loop_tokensOf (expression : list ascii) (fuel : nat) :
  forall i tokens, List.length expression - i < fuel ->
  tokenize_loop fuel expression i tokens =
  match offending false (skipn i expression) with
  | None => Ok (tokens ++ tokensOf false (skipn i expression))
  | Some c => Throw ("Invalid character in expression: " ++ String c "")%string
  end.
Proof.
  induction fuel as [| fuel IH]; intros i tokens Hfuel; [lia |].
  cbn [tokenize_loop].
  destruct (nth_error expression i) as [c |] eqn:Hc.
  2:{ rewrite (skipn_nth_None _ _ Hc). cbn [offending tokensOf]. now rewrite app_nil_r. }
  assert (Hi : i < List.length expression) by (apply nth_error_Some; congruence).
  destruct (char_classes c) as (Hws & Hdig & Hdot).
  rewrite (skipn_nth_Some _ _ _ Hc).
  destruct (isWhitespace c) eqn:Ews.
  { specialize (Hws eq_refl). unfold isNumberChar in Hws.
    apply orb_false_elim in Hws. destruct Hws as (Edig & Edot).
    cbn [offending tokensOf]. rewrite Edig, Edot, Ews. cbn [orb].
    destruct (isOperatorChar c) eqn:Eop.
    { destruct c as [[|] [|] [|] [|] [|] [|] [|] [|]]; discriminate. }
    destruct (Ascii.eqb c "(") eqn:Elp.
    { apply Ascii.eqb_eq in Elp. subst c. discriminate. }
    destruct (Ascii.eqb c ")") eqn:Erp.
    { apply Ascii.eqb_eq in Erp. subst c. discriminate. }
    apply IH. lia. }
  destruct (isDigit c) eqn:Edig.
  { rewrite scanNumber_run by lia. cbn [bind].
    rewrite (skipn_nth_Some _ _ _ Hc).
    assert (Enc : isNumberChar c = true) by (unfold isNumberChar; now rewrite Edig).
    cbn [numberRun]. rewrite Enc.
    cbn [append List.length string_of_list_ascii].
    change (String c (string_of_list_ascii (numberRun (skipn (S i) expression))))
      with (string_of_list_ascii (c :: numberRun (skipn (S i) expression))).
    rewrite (parseFloat_isNaN c _ Edig).
    rewrite IH by lia.
    cbn [offending tokensOf]. rewrite Edig.
    rewrite offending_run, tokensOf_run, skipn_skipn.
    replace (List.length (numberRun (skipn (S i) expression)) + S i)
      with (i + S (List.length (numberRun (skipn (S i) expression)))) by lia.
    cbn [numberRun]. rewrite Enc.
    destruct (offending false _); [reflexivity |].
    now rewrite <- app_assoc. }
  cbn [offending tokensOf]. rewrite Edig.
  destruct (Ascii.eqb c ".") eqn:Edot.
  { destruct (Hdot eq_refl) as (-> & -> & ->). reflexivity. }
  destruct (isOperatorChar c) eqn:Eop.
  { rewrite ?Ews. cbn [orb]. rewrite IH by lia.
    destruct (offending false _); [reflexivity |]. now rewrite <- app_assoc. }
  destruct (Ascii.eqb c "(") eqn:Elp.
  { rewrite ?Ews. cbn [orb]. rewrite IH by lia.
    destruct (offending false _); [reflexivity |]. now rewrite <- app_assoc. }
  destruct (Ascii.eqb c ")") eqn:Erp.
  { rewrite ?Ews. cbn [orb]. rewrite IH by lia.
    destruct (offending false _); [reflexivity |]. now rewrite <- app_assoc. }
  rewrite ?Ews. reflexivity.
Qed.

Lemma tokenize_tokensOf (expression : string) :
  tokenize expression =
  match offending false (codeUnits expression) with
  | None => Ok (tokensOf false (codeUnits expression))
  | Some c => Throw ("Invalid character in expression: " ++ String c "")%string
  end.
Proof.
  unfold tokenize.
  rewrite (tokenize_loop_tokensOf (codeUnits expression)) by lia.
  reflexivity.
Qed.

(** The offending character ends the shortest prefix that is not
    lexable. *)
Lemma offending_split (cs : list ascii) :
  forall inNumber c,
  offending inNumber cs = Some c ->
  exists before after,
    cs = before ++ c :: after
    /\ lexable inNumber before = true
    /\ lexable inNumber (before ++ [c]) = false
    /\ isStray c = true.
Proof.
  induction cs as [| x cs IH]; intros inNumber c; [discriminate |].
  cbn [offending]. destruct (char_classes x) as (_ & _ & Hdot).
  assert (Hcons : forall b b', 
             (forall l, lexable b (x :: l) = lexable b' l) ->
             offending b' cs = Some c ->
             exists before after,
               x :: cs = before ++ c :: after
               /\ lexable b before = true
               /\ lexable b (before ++ [c]) = false
               /\ isStray c = true).
  { intros b b' Hstep H. destruct (IH b' c H) as (before & after & -> & H1 & H2 & H3).
    exists (x :: before), after. cbn [app]. rewrite !Hstep. now repeat split. }
  destruct (isDigit x) eqn:Edig.
  { apply (Hcons inNumber true). intros l. cbn [lexable]. now rewrite Edig. }
  destruct (Ascii.eqb x ".") eqn:Edot.
  { destruct inNumber.
    - apply (Hcons true true). intros l. cbn [lexable]. now rewrite Edig, Edot.
    - intros H. injection H as <-. exists [], cs. cbn [app lexable].
      rewrite Edig, Edot. repeat split.
      unfold isStray. rewrite Edig. destruct (Hdot eq_refl) as (-> & -> & ->).
      apply Ascii.eqb_eq in Edot. now subst x. }
  destruct (isWhitespace x || isOperatorChar x || Ascii.eqb x "(" || Ascii.eqb x ")")
    eqn:Eok.
  { apply (Hcons inNumber false). intros l. cbn [lexable]. now rewrite Edig, Edot, Eok. }
  intros H. injection H as <-. exists [], cs. cbn [app lexable].
  rewrite Edig, Edot, Eok. repeat split.
  unfold isStray. rewrite Edig.
  apply orb_false_elim in Eok. destruct Eok as (Eok & ->).
  apply orb_false_elim in Eok. destruct Eok as (Eok & ->).
  apply orb_false_elim in Eok. destruct Eok as (-> & ->). reflexivity.
Qed.

(** C5: [tokenize] always returns or throws.  It throws exactly when the
    input has a character that is not white space, a digit, [.], an
    operator or a parenthesis, or a [.] that does not continue a run of
    digits and dots begun by a digit.  The message names the first such
    character: the input is lexable up to it and no longer with it (in
    ["1.5 #"] that is [#], not the point before it).  The shape of a
    numeric literal is not checked beyond that: ["1.2.3"] is the single
    number 1.2. *)
Theorem tokenize_fails_iff :
  (forall expression,
      tokenize expression <> OutOfFuel
      /\ ((exists message, tokenize expression = Throw message)
          <-> (exists c, In c (codeUnits expression) /\ isListedChar c = false)
              \/ dotsInNumbers false (codeUnits expression) = false)
      /\ (forall message,
             tokenize expression = Throw message ->
             exists before c after,
               codeUnits expression = before ++ c :: after
               /\ lexable false before = true
               /\ lexable false (before ++ [c]) = false
               /\ isStray c = true
               /\ message = ("Invalid character in expression: " ++ String c "")%string))
  /\ tokenize "1.2.3" = Ok [numberToken (ofRatio 12 10)]
  /\ tokenize "2 . 3" = Throw "Invalid character in expression: ."
  /\ tokenize ".5" = Throw "Invalid character in expression: ."
  /\ tokenize "2 + # 3" = Throw "Invalid character in expression: #"
  /\ tokenize "1.5 #" = Throw "Invalid character in expression: #".
Proof.
  split; [| repeat split; vm_compute; reflexivity].
  intros expression. split; [apply tokenize_returns |].
  pose proof (tokenize_lexable expression) as H.
  rewrite lexable_factors in H.
  split.
  - split.
    + intros (message & Hthrow).
      destruct (forallb isListedChar (codeUnits expression)) eqn:Eall.
      * destruct (dotsInNumbers false (codeUnits expression)); [| now right].
        simpl in H. destruct H as (ts & Hok). congruence.
      * left. clear H. induction (codeUnits expression) as [| c cs IH]; [discriminate |].
        simpl in Eall. apply andb_false_iff in Eall. destruct Eall as [Ec | Ecs].
        -- exists c. split; [now left | exact Ec].
        -- destruct (IH Ecs) as (c' & Hin & Hc'). exists c'. split; [now right | exact Hc'].
    + intros Hbad.
      assert (E : forallb isListedChar (codeUnits expression)
                  && dotsInNumbers false (codeUnits expression) = false).
      { destruct Hbad as [(c & Hin & Hc) | Hdots].
        - apply andb_false_iff. left.
          destruct (forallb isListedChar (codeUnits expression)) eqn:Eall; [| reflexivity].
          rewrite (proj1 (forallb_forall _ _) Eall c Hin) in Hc. discriminate.
        - apply andb_false_iff. now right. }
      rewrite E in H. destruct H as (c & _ & _ & Hthrow). eexists. exact Hthrow.
  - intros message Hthrow. clear H. rewrite tokenize_tokensOf in Hthrow.
    destruct (offending false (codeUnits expression)) as [c |] eqn:Hc; [| discriminate].
    injection Hthrow as <-.
    destruct (offending_split _ _ _ Hc) as (before & after & Hsplit & H1 & H2 & H3).
    exists before, c, after. now repeat split.
Qed.

Lemma tokenize_fails_iff_witness :
  exists before c after,
    codeUnits "1.5 % 2" = before ++ c :: after
    /\ lexable false before = true
    /\ lexable false (before ++ [c]) = false
    /\ isStray c = true
    /\ "Invalid character in expression: %"
       = ("Invalid character in expression: " ++ String c "")%string.
Proof.
  apply (proj2 (proj2 (proj1 tokenize_fails_iff "1.5 % 2"))).
  vm_compute. reflexivity.
Defined.

(** The lexer's contract as the specification words it: a malformed
    numeric literal such as ["1.2.3"] is a failure; on the code it is not,
    nor does every input made of listed characters and well-formed
    literals succeed. *)
Lemma tokenize_accepts_malformed_literal :
  (exists ts, tokenize "1.2.3" = Ok ts)
  /\ forallb isListedChar (codeUnits "2 . 3") = true
     /\ exists message, tokenize "2 . 3" = Throw message.
Proof.
  split; [| split].
  - eexists. vm_compute. reflexivity.
  - vm_compute. reflexivity.
  - eexists. vm_compute. reflexivity.
Qed.

(** ** Trailing tokens *)

(** C6: What the code does on input with tokens left over after a
    complete expression: [evaluate] returns the value of the parsed prefix
    (the parser never checks that [current] reached the end), and
    [isValidExpression] accepts when the parentheses of the whole sequence
    balance. *)
Theorem trailing_tokens_are_ignored :
  evaluate "2 + 3)" = Ok (ofZ 5)
  /\ evaluate "2 3" = Ok (ofZ 2)
  /\ evaluate "2 + 3) 4" = Ok (ofZ 5)
  /\ isValidExpression "2 3" = Ok true
  /\ (forall ts rest t,
         Derives Additive ts t -> endsAdditive rest = true ->
         parse (ts ++ rest) = Ok t).
Proof.
  split; [vm_compute; reflexivity |].
  split; [vm_compute; reflexivity |].
  split; [vm_compute; reflexivity |].
  split; [vm_compute; reflexivity |].
  intros ts rest t Hd Hend. now apply derives_parse_prefix.
Qed.

Lemma trailing_tokens_are_ignored_witness :
  parse ([numberToken (ofZ 2)] ++ [numberToken (ofZ 3)]) = Ok (NumberNode (ofZ 2)).
Proof.
  apply (proj2 (proj2 (proj2 (proj2 trailing_tokens_are_ignored)))).
  - do 3 constructor.
  - reflexivity.
Defined.

(** ** Unary operators *)

(** C7: Unary minus may be repeated: [n] minus signs before a primary
    parse to [n] nested negation nodes, whose value is the operand's when
    [n] is even and its negation when [n] is odd; a unary plus leaves no
    node.  ["--5"] gives 5 and ["---5"] gives -5. *)
Theorem unary_minus_chains_cancel :
  (forall n ts t,
      Derives Primary ts t ->
      parse (repeat (operatorToken "-") n ++ ts) = Ok (negations n t))
  /\ (forall n t,
         evaluateNode (negations n t) =
         (v <- evaluateNode t ;; Ok (if Nat.even n then v else neg v)))
  /\ (forall ts t,
         Derives Primary ts t ->
         parse (operatorToken "+" :: ts) = Ok t)
  /\ (forall tokens fuel c,
         nth_error tokens c = Some (operatorToken "-") ->
         parsePrimary tokens (S fuel) c =
         ('(operand, c') <- parsePrimary tokens fuel (S c) ;;
          Ok (UnaryNode OpSub operand, c')))
  /\ (forall tokens fuel c,
         nth_error tokens c = Some (operatorToken "+") ->
         parsePrimary tokens (S fuel) c = parsePrimary tokens fuel (S c))
  /\ evaluate "--5" = Ok (ofZ 5)
  /\ evaluate "---5" = Ok (ofZ (-5)).
Proof.
  split; [| split; [| split; [| split; [| split]]]].
  - intros n ts t Hd. apply derives_parse. do 2 constructor.
    now apply derives_negations.
  - exact evaluateNode_negations.
  - intros ts t Hd. apply derives_parse. do 2 constructor. now constructor.
  - intros tokens fuel c Hc. now rewrite parsePrimary_S, Hc.
  - intros tokens fuel c Hc. now rewrite parsePrimary_S, Hc.
  - split; vm_compute; reflexivity.
Qed.

Lemma unary_minus_chains_cancel_witness :
  parse (repeat (operatorToken "-") 2 ++ [numberToken (ofZ 5)])
  = Ok (negations 2 (NumberNode (ofZ 5))).
Proof.
  apply (proj1 unary_minus_chains_cancel 2 [numberToken (ofZ 5)]).
  constructor.
Defined.

(** ** Blank input *)

(** C8: On an empty or white-space-only string [evaluate] returns 0 and
    [isValidExpression] returns [true], and they do so without entering
    the pipeline: whatever the tokenizer, the parser and the tree
    evaluator are put in their place, also ones that throw, the results
    are the same 0 and [true].  On any other string the tokenizer is
    called: a tokenizer that throws makes [evaluate] throw and
    [isValidExpression] return [false].  So for [""] and ["   "]. *)
Theorem blank_input_is_zero_and_valid :
  (forall expression,
      (forall c, In c (codeUnits expression) -> isWhitespace c = true) ->
      evaluate expression = Ok (ofZ 0)
      /\ isValidExpression expression = Ok true
      /\ (forall tokenizeStage parseStage evaluateNodeStage,
             evaluateOver tokenizeStage parseStage evaluateNodeStage expression
             = Ok (ofZ 0))
      /\ (forall tokenizeStage parseStage,
             isValidExpressionOver tokenizeStage parseStage expression = Ok true))
  /\ (forall expression,
         evaluate expression = evaluateOver tokenize parse evaluateNode expression
         /\ isValidExpression expression
            = isValidExpressionOver tokenize parse expression)
  /\ (forall expression c message parseStage evaluateNodeStage,
         In c (codeUnits expression) -> isWhitespace c = false ->
         evaluateOver (fun _ => Throw message) parseStage evaluateNodeStage expression
         = Throw ("Calculation error: " ++ message)%string
         /\ isValidExpressionOver (fun _ => Throw message) parseStage expression
            = Ok false)
  /\ evaluate "" = Ok (ofZ 0)
  /\ evaluate "   " = Ok (ofZ 0)
  /\ isValidExpression "" = Ok true.
Proof.
  split; [| split; [| split; [| repeat split; vm_compute; reflexivity]]].
  - intros expression Hblank.
    assert (E : isBlank expression = true) by (now apply forallb_forall).
    unfold evaluate, isValidExpression, evaluateOver, isValidExpressionOver.
    rewrite E. repeat split.
  - intros expression. split; reflexivity.
  - intros expression c message parseStage evaluateNodeStage Hin Hc.
    assert (E : isBlank expression = false).
    { unfold isBlank. destruct (forallb isWhitespace (codeUnits expression)) eqn:Eall;
        [| reflexivity].
      rewrite (proj1 (forallb_forall _ _) Eall c Hin) in Hc. discriminate. }
    unfold evaluateOver, isValidExpressionOver. rewrite E. split; reflexivity.
Qed.

Lemma blank_input_is_zero_and_valid_witness :
  evaluate (String (ascii_of_nat 9) " ") = Ok (ofZ 0)
  /\ isValidExpression (String (ascii_of_nat 9) " ") = Ok true
  /\ (forall tokenizeStage parseStage evaluateNodeStage,
         evaluateOver tokenizeStage parseStage evaluateNodeStage
           (String (ascii_of_nat 9) " ")
         = Ok (ofZ 0))
  /\ (forall tokenizeStage parseStage,
         isValidExpressionOver tokenizeStage parseStage (String (ascii_of_nat 9) " ")
         = Ok true).
Proof.
  apply (proj1 blank_input_is_zero_and_valid).
  intros c [<- | [<- | []]]; reflexivity.
Defined.

(** ** Validation does not evaluate *)

(** C10: ["5 / 0"] is a valid expression for [isValidExpression], which
    only tokenizes, balances and parses, while [evaluate] fails on it with
    a division by zero. *)
Theorem valid_expression_may_fail_to_evaluate :
  isValidExpression "5 / 0" = Ok true
  /\ evaluate "5 / 0" = Throw "Calculation error: Division by zero"
  /\ (forall expression ts t,
         tokenize expression = Ok ts -> Derives Additive ts t -> depth ts = 0%Z ->
         ~ goesNegative ts ->
         isValidExpression expression = Ok true).
Proof.
  split; [vm_compute; reflexivity |].
  split; [vm_compute; reflexivity |].
  intros expression ts t Htok Hd Hdepth Hneg.
  apply (isValidExpression_cases expression) with (ts := ts) (t := t); try assumption.
  - exact (tokens_not_blank _ _ Htok (derives_nonempty _ _ _ Hd)).
  - now apply derives_parse.
Qed.

Lemma valid_expression_may_fail_to_evaluate_witness :
  isValidExpression "1 / 0" = Ok true.
Proof.
  apply (proj2 (proj2 valid_expression_may_fail_to_evaluate) "1 / 0"
           [numberToken (ofZ 1); operatorToken "/"; numberToken (ofZ 0)]
           (BinaryNode OpDiv (NumberNode (ofZ 1)) (NumberNode (ofZ 0)))).
  - vm_compute. reflexivity.
  - apply D_multiplicative.
    apply (D_div [numberToken (ofZ 1)] [numberToken (ofZ 0)]); do 2 constructor.
  - reflexivity.
  - intros (n & Hn). do 4 (destruct n as [| n]; [vm_compute in Hn; discriminate |]).
    vm_compute in Hn. discriminate.
Defined.

(** ** Formatting *)

Lemma digitsOf_head (s : Z) :
  exists c r, digitsOf s = String c r /\ isDigit c = true.
Proof.
  destruct s as [| p | p]; simpl; try (now exists "0"%char, ""%string).
  pose proof (DecimalPos.Unsigned.to_uint_nonnil p) as Hnil.
  destruct (Pos.to_uint p); [now elim Hnil | ..]; simpl;
    eexists; eexists; (split; [reflexivity | reflexivity]).
Qed.







(** ** The notation of a number

    When the number-to-string conversion gives a plain numeral and when
    exponent notation: the digits and the exponent [shortest] finds are
    related to the magnitude of the number, for numbers in canonical form,
    as the arithmetic returns them. *)

Section Notation.

Local Open Scope Z_scope.

(** *** Decimal digits of an integer *)








(** *** The decimal exponent *)





(** *** The candidates *)





(** *** Plain numerals and exponent notation *)
















(** *** Numbers in canonical form *)



(** *** The value [m * 2^e] as a ratio, against [1e-6] and [1e21]

    The number [1e21] is [7629394531250000 * 2^17] and the number [1e-6],
    the one nearest to [10^(-6)] and a little below it, is
    [4722366482869645 * 2^(-72)]. *)






(** *** The decimal exponent against a power of ten *)






(** *** Digits that round up to [1e21] or to [1e-6] *)




(** *** The sign *)











(** *** The results of the arithmetic are in canonical form *)










End Notation.





(** * Further properties of the engine *)

(** ** The tokens [tokenize] returns *)

Lemma operatorChar_canonical (c : ascii) :
  isOperatorChar c = true ->
  canonicalToken {| type := Toperator; value := Str (String c "") |} = true.
Proof.
  unfold isOperatorChar, canonicalToken. cbn [type value].
  intros H. repeat (apply orb_prop in H; destruct H as [H | H]);
    apply Ascii.eqb_eq in H; subst c; reflexivity.
Qed.

Lemma tokenize_loop_canonical (expression : list ascii) (fuel : nat) :
  forall i tokens ts,
  Forall (fun t => canonicalToken t = true) tokens ->
  tokenize_loop fuel expression i tokens = Ok ts ->
  Forall (fun t => canonicalToken t = true) ts.
Proof.
  induction fuel as [| fuel IH]; intros i tokens ts Hall; [discriminate |].
  assert (Hpush : forall x, canonicalToken x = true ->
                            Forall (fun t => canonicalToken t = true) (tokens ++ [x])).
  { intros x Hx. apply Forall_app. split; [exact Hall | now constructor]. }
  cbn [tokenize_loop].
  destruct (nth_error expression i) as [c |]; [| now intros H; injection H as <-].
  destruct (isWhitespace c); [now apply IH |].
  destruct (isDigit c).
  { destruct (scanNumber _ _ _ _) as [[numStr i'] | |]; cbn [bind]; try discriminate.
    apply IH. destruct (isNaN (parseFloat numStr)) eqn:E; [exact Hall |].
    apply Hpush. unfold canonicalToken. cbn [type value]. now rewrite E. }
  destruct (isOperatorChar c) eqn:Eop.
  { apply IH, Hpush. now apply operatorChar_canonical. }
  destruct (Ascii.eqb c "("); [apply IH, Hpush; reflexivity |].
  destruct (Ascii.eqb c ")"); [apply IH, Hpush; reflexivity |].
  discriminate.
Qed.

(** X1: the tokens [tokenize] returns are the tokens of the input, in
    order: one number token for every run of digits and dots begun by a
    digit, carrying [parseFloat] of the run (the test [!isNaN(num)] never
    drops a literal), and one token for every operator and parenthesis.
    Every token is canonical: its [type] and its [value] agree, a number
    token never carries [NaN], an operator token carries one of
    [+ - * /]. *)
Theorem tokenize_canonical (expression : string) (ts : list Token) :
  tokenize expression = Ok ts ->
  ts = tokensOf false (codeUnits expression)
  /\ Forall (fun t => canonicalToken t = true) ts.
Proof.
  intros H. split.
  - rewrite tokenize_tokensOf in H.
    destruct (offending false (codeUnits expression)); [discriminate |].
    now injection H.
  - revert H. unfold tokenize. apply tokenize_loop_canonical. constructor.
Qed.

Lemma tokenize_canonical_witness :
  [numberToken (ofRatio 15 10); operatorToken "*"; lparenToken; numberToken (ofZ 2);
   rparenToken]
  = tokensOf false (codeUnits "1.5 * (2)")
  /\ Forall (fun t => canonicalToken t = true)
       [numberToken (ofRatio 15 10); operatorToken "*"; lparenToken; numberToken (ofZ 2);
        rparenToken].
Proof.
  apply (tokenize_canonical "1.5 * (2)"). vm_compute. reflexivity.
Defined.

(** ** The parser accepts only phrases of the grammar *)

Lemma segment_single (tokens : list Token) (c : nat) (x : Token) :
  nth_error tokens c = Some x -> segment tokens c [x].
Proof.
  intros H. apply nth_error_split in H. destruct H as (l1 & l2 & -> & <-).
  now exists l1, l2.
Qed.

Lemma segment_join (tokens : list Token) (c : nat) (a b : list Token) :
  segment tokens c a -> segment tokens (c + List.length a) b ->
  segment tokens c (a ++ b).
Proof.
  intros (pre & post & E & L) (pre' & post' & E' & L').
  assert (Hpre : pre' = pre ++ a).
  { assert (H1 : firstn (List.length pre') tokens = pre').
    { rewrite E'. rewrite firstn_app, Nat.sub_diag, firstn_all. simpl.
      now rewrite app_nil_r. }
    assert (H2 : firstn (List.length (pre ++ a)) tokens = pre ++ a).
    { rewrite E. rewrite app_assoc. rewrite firstn_app, Nat.sub_diag, firstn_all. simpl.
      now rewrite app_nil_r. }
    rewrite <- H1, <- H2. f_equal. rewrite length_app. lia. }
  subst pre'. exists pre, post'. split; [| exact L].
  rewrite E'. now rewrite <- !app_assoc.
Qed.

Lemma canonical_lparen (token : Token) :
  canonicalToken token = true -> type token = Tlparen -> token = lparenToken.
Proof.
  destruct token as [ty v]. unfold canonicalToken. cbn [type value].
  intros H ->. destruct v as [s | n]; [| discriminate].
  apply String.eqb_eq in H. now subst s.
Qed.

Lemma canonical_rparen (token : Token) :
  canonicalToken token = true -> type token = Trparen -> token = rparenToken.
Proof.
  destruct token as [ty v]. unfold canonicalToken. cbn [type value].
  intros H ->. destruct v as [s | n]; [| discriminate].
  apply String.eqb_eq in H. now subst s.
Qed.

Lemma canonical_number (token : Token) :
  canonicalToken token = true -> type token = Tnumber ->
  token = numberToken (asNumber (value token)).
Proof.
  destruct token as [ty v]. unfold canonicalToken. cbn [type value].
  intros H ->. now destruct v.
Qed.

Lemma isOperator_token (token : Token) (s : string) :
  isOperator token s = true -> token = operatorToken s.
Proof.
  destruct token as [ty v]. unfold isOperator. cbn [type value]. intros H.
  apply andb_prop in H. destruct H as (Hty & Hv).
  destruct ty; try discriminate. destruct v as [s' | n]; [| discriminate].
  apply String.eqb_eq in Hv. now subst s'.
Qed.

Lemma TokenType_eqb_eq (a b : TokenType) : TokenType_eqb a b = true -> a = b.
Proof. destruct a, b; simpl; congruence. Qed.

Section ParserSound.

Variable tokens : list Token.
Hypothesis canonical : Forall (fun t => canonicalToken t = true) tokens.

Lemma canonical_at (c : nat) (token : Token) :
  nth_error tokens c = Some token -> canonicalToken token = true.
Proof.
  intros H. apply nth_error_In in H.
  exact (proj1 (Forall_forall _ _) canonical token H).
Qed.

(** What a call that returns has read, tier by tier; a loop extends the
    phrase read before it. *)
Lemma parse_sound (fuel : nat) :
  (forall c t c',
      parseAddSub tokens fuel c = Ok (t, c') ->
      exists ts, segment tokens c ts /\ c' = c + List.length ts /\ Derives Additive ts t)
  /\ (forall l c t c',
         parseAddSub_loop tokens fuel l c = Ok (t, c') ->
         forall c0 ts0,
         segment tokens c0 ts0 -> c = c0 + List.length ts0 -> Derives Additive ts0 l ->
         exists ts,
           segment tokens c0 ts /\ c' = c0 + List.length ts /\ Derives Additive ts t)
  /\ (forall c t c',
         parseMulDiv tokens fuel c = Ok (t, c') ->
         exists ts,
           segment tokens c ts /\ c' = c + List.length ts /\ Derives Multiplicative ts t)
  /\ (forall l c t c',
         parseMulDiv_loop tokens fuel l c = Ok (t, c') ->
         forall c0 ts0,
         segment tokens c0 ts0 -> c = c0 + List.length ts0 ->
         Derives Multiplicative ts0 l ->
         exists ts,
           segment tokens c0 ts /\ c' = c0 + List.length ts
           /\ Derives Multiplicative ts t)
  /\ (forall c t c',
         parsePrimary tokens fuel c = Ok (t, c') ->
         exists ts, segment tokens c ts /\ c' = c + List.length ts /\ Derives Primary ts t).
Proof.
  induction fuel as [| fuel (HA & HAL & HM & HML & HP)].
  - repeat split; intros; discriminate.
  - repeat split.
    + intros c t c'. rewrite parseAddSub_S. intros H.
      apply bind_Ok_inv in H. destruct H as ([node c1] & H1 & H2).
      apply HM in H1. destruct H1 as (ts1 & Hseg1 & -> & Hd1).
      apply (HAL _ _ _ _ H2 c ts1 Hseg1 eq_refl). now constructor.
    + intros l c t c'. rewrite parseAddSub_loop_S.
      destruct (nth_error tokens c) as [token |] eqn:Hc.
      2:{ intros H c0 ts0 Hseg0 -> Hd0. injection H as <- <-. now exists ts0. }
      destruct (isOperator token "+" || isOperator token "-") eqn:Eop.
      2:{ intros H c0 ts0 Hseg0 -> Hd0. injection H as <- <-. now exists ts0. }
      intros H c0 ts0 Hseg0 -> Hd0.
      apply bind_Ok_inv in H. destruct H as ([node c1] & H1 & H2).
      apply HM in H1. destruct H1 as (ts1 & Hseg1 & -> & Hd1).
      assert (Hseg : segment tokens c0 (ts0 ++ token :: ts1)).
      { apply segment_join; [exact Hseg0 |].
        apply (segment_join _ _ [token] ts1); [now apply segment_single |].
        simpl. now rewrite Nat.add_1_r. }
      apply (HAL _ _ _ _ H2 c0 (ts0 ++ token :: ts1) Hseg).
      * rewrite length_app. simpl. lia.
      * apply orb_prop in Eop. destruct Eop as [E | E];
          apply isOperator_token in E; subst token; cbn [value operatorToken valueIs];
          simpl String.eqb; cbv iota; now constructor.
    + intros c t c'. rewrite parseMulDiv_S. intros H.
      apply bind_Ok_inv in H. destruct H as ([node c1] & H1 & H2).
      apply HP in H1. destruct H1 as (ts1 & Hseg1 & -> & Hd1).
      apply (HML _ _ _ _ H2 c ts1 Hseg1 eq_refl). now constructor.
    + intros l c t c'. rewrite parseMulDiv_loop_S.
      destruct (nth_error tokens c) as [token |] eqn:Hc.
      2:{ intros H c0 ts0 Hseg0 -> Hd0. injection H as <- <-. now exists ts0. }
      destruct (isOperator token "*" || isOperator token "/") eqn:Eop.
      2:{ intros H c0 ts0 Hseg0 -> Hd0. injection H as <- <-. now exists ts0. }
      intros H c0 ts0 Hseg0 -> Hd0.
      apply bind_Ok_inv in H. destruct H as ([node c1] & H1 & H2).
      apply HP in H1. destruct H1 as (ts1 & Hseg1 & -> & Hd1).
      assert (Hseg : segment tokens c0 (ts0 ++ token :: ts1)).
      { apply segment_join; [exact Hseg0 |].
        apply (segment_join _ _ [token] ts1); [now apply segment_single |].
        simpl. now rewrite Nat.add_1_r. }
      apply (HML _ _ _ _ H2 c0 (ts0 ++ token :: ts1) Hseg).
      * rewrite length_app. simpl. lia.
      * apply orb_prop in Eop. destruct Eop as [E | E];
          apply isOperator_token in E; subst token; cbn [value operatorToken valueIs];
          simpl String.eqb; cbv iota; now constructor.
    + intros c t c'. rewrite parsePrimary_S.
      destruct (nth_error tokens c) as [token |] eqn:Hc; [| discriminate].
      pose proof (canonical_at _ _ Hc) as Hcanon.
      destruct (TokenType_eqb (type token) Tlparen) eqn:Elp.
      { intros H. apply bind_Ok_inv in H. destruct H as ([node c1] & H1 & H2).
        apply HA in H1. destruct H1 as (ts1 & Hseg1 & -> & Hd1).
        destruct (nth_error tokens (S c + List.length ts1)) as [closing |] eqn:Hclose;
          [| discriminate].
        destruct (TokenType_eqb (type closing) Trparen) eqn:Erp; [| discriminate].
        injection H2 as <- <-.
        pose proof (canonical_lparen token Hcanon (TokenType_eqb_eq _ _ Elp)) as Etoken.
        pose proof (canonical_rparen closing (canonical_at _ _ Hclose)
                      (TokenType_eqb_eq _ _ Erp)) as Eclosing.
        subst token closing.
        exists (lparenToken :: ts1 ++ [rparenToken]). split; [| split].
        - apply (segment_join _ _ [lparenToken] (ts1 ++ [rparenToken]));
            [now apply segment_single |].
          simpl List.length. rewrite Nat.add_1_r.
          apply segment_join; [exact Hseg1 | now apply segment_single].
        - simpl. rewrite length_app. simpl. lia.
        - now constructor. }
      destruct (isOperator token "-") eqn:Eminus.
      { intros H. apply bind_Ok_inv in H. destruct H as ([node c1] & H1 & H2).
        apply HP in H1. destruct H1 as (ts1 & Hseg1 & -> & Hd1).
        injection H2 as <- <-. apply isOperator_token in Eminus. subst token.
        exists (operatorToken "-" :: ts1). split; [| split].
        - apply (segment_join _ _ [operatorToken "-"] ts1); [now apply segment_single |].
          simpl List.length. now rewrite Nat.add_1_r.
        - simpl. lia.
        - now constructor. }
      destruct (isOperator token "+") eqn:Eplus.
      { intros H. apply HP in H. destruct H as (ts1 & Hseg1 & -> & Hd1).
        apply isOperator_token in Eplus. subst token.
        exists (operatorToken "+" :: ts1). split; [| split].
        - apply (segment_join _ _ [operatorToken "+"] ts1); [now apply segment_single |].
          simpl List.length. now rewrite Nat.add_1_r.
        - simpl. lia.
        - now constructor. }
      destruct (TokenType_eqb (type token) Tnumber) eqn:Enum; [| discriminate].
      intros H. injection H as <- <-.
      exists [token]. split; [now apply segment_single | split; [simpl; lia |]].
      rewrite (canonical_number token Hcanon (TokenType_eqb_eq _ _ Enum)) at 1.
      constructor.
Qed.

End ParserSound.

(** From index 0, [parseAddSub] reads a phrase of the grammar and stops
    right behind it. *)
Lemma parseAddSub_from_start (ts : list Token) (t : ExpressionNode) (c : nat) :
  Forall (fun token => canonicalToken token = true) ts ->
  parseAddSub ts (parseFuel ts) 0 = Ok (t, c) ->
  exists phrase rest,
    ts = phrase ++ rest /\ c = List.length phrase /\ Derives Additive phrase t.
Proof.
  intros Hcanon H.
  destruct (parse_sound ts Hcanon (parseFuel ts)) as (HA & _).
  apply HA in H. destruct H as (phrase & (pre & post & Ets & Hlen) & Hc & Hd).
  destruct pre; [| discriminate]. exists phrase, post.
  split; [exact Ets | split; [exact Hc | exact Hd]].
Qed.

(** X2: on canonical tokens, a tree returned by [parse] is the tree the
    grammar gives to a prefix of the token sequence: the parser accepts
    nothing but phrases of the grammar (and leaves the rest unread). *)
Theorem parse_sound_prefix (ts : list Token) (t : ExpressionNode) :
  Forall (fun token => canonicalToken token = true) ts ->
  parse ts = Ok t ->
  exists phrase rest, ts = phrase ++ rest /\ Derives Additive phrase t.
Proof.
  intros Hcanon Hparse. unfold parse in Hparse.
  apply bind_Ok_inv in Hparse. destruct Hparse as ([ast c'] & H & E).
  injection E as ->.
  destruct (parseAddSub_from_start ts t c' Hcanon H) as (phrase & rest & Ets & _ & Hd).
  now exists phrase, rest.
Qed.

Lemma parse_sound_prefix_witness :
  exists phrase rest,
    [numberToken (ofZ 2); operatorToken "+"; numberToken (ofZ 3); rparenToken]
    = phrase ++ rest
    /\ Derives Additive phrase
         (BinaryNode OpAdd (NumberNode (ofZ 2)) (NumberNode (ofZ 3))).
Proof.
  apply parse_sound_prefix.
  - repeat constructor.
  - vm_compute. reflexivity.
Defined.

(** ** The errors of [parse] and of [evaluate] *)

Section ParserErrors.

Variable tokens : list Token.
Hypothesis canonical : Forall (fun t => canonicalToken t = true) tokens.

Lemma unexpected_token (token : Token) :
  canonicalToken token = true ->
  TokenType_eqb (type token) Tlparen = false ->
  isOperator token "-" = false -> isOperator token "+" = false ->
  TokenType_eqb (type token) Tnumber = false ->
  isParseError ("Unexpected token: " ++ valueToString (value token))%string = true.
Proof.
  destruct token as [ty v]. unfold canonicalToken, isOperator. cbn [type value].
  destruct ty; cbn [TokenType_eqb andb]; try discriminate.
  - destruct v as [s | n]; [| discriminate]. cbn [valueIs valueToString].
    intros H _ Hminus Hplus _. rewrite Hminus, Hplus in H. cbn [orb] in H.
    apply orb_prop in H. destruct H as [H | H]; apply String.eqb_eq in H; now subst s.
  - destruct v as [s | n]; [| discriminate]. cbn [valueToString].
    intros H _ _ _ _. apply String.eqb_eq in H. now subst s.
Qed.

Lemma parse_throw_kinds (fuel : nat) :
  (forall c m, parseAddSub tokens fuel c = Throw m -> isParseError m = true)
  /\ (forall l c m, parseAddSub_loop tokens fuel l c = Throw m -> isParseError m = true)
  /\ (forall c m, parseMulDiv tokens fuel c = Throw m -> isParseError m = true)
  /\ (forall l c m, parseMulDiv_loop tokens fuel l c = Throw m -> isParseError m = true)
  /\ (forall c m, parsePrimary tokens fuel c = Throw m -> isParseError m = true).
Proof.
  assert (Hbind : forall (m1 : outcome (ExpressionNode * nat))
                         (k : ExpressionNode * nat -> outcome (ExpressionNode * nat)) m,
             (forall m', m1 = Throw m' -> isParseError m' = true) ->
             (forall a m', k a = Throw m' -> isParseError m' = true) ->
             bind m1 k = Throw m -> isParseError m = true).
  { intros m1 k m H1 H2. destruct m1 as [a | m' |]; cbn [bind].
    - apply H2.
    - intros E. injection E as <-. now apply H1.
    - discriminate. }
  induction fuel as [| fuel (HA & HAL & HM & HML & HP)].
  - repeat split; intros; discriminate.
  - repeat split.
    + intros c m. rewrite parseAddSub_S.
      apply Hbind; [apply HM | intros [node c1]; apply HAL].
    + intros l c m. rewrite parseAddSub_loop_S.
      destruct (nth_error tokens c) as [token |]; [| discriminate].
      destruct (isOperator token "+" || isOperator token "-"); [| discriminate].
      apply Hbind; [apply HM | intros [node c1]; apply HAL].
    + intros c m. rewrite parseMulDiv_S.
      apply Hbind; [apply HP | intros [node c1]; apply HML].
    + intros l c m. rewrite parseMulDiv_loop_S.
      destruct (nth_error tokens c) as [token |]; [| discriminate].
      destruct (isOperator token "*" || isOperator token "/"); [| discriminate].
      apply Hbind; [apply HP | intros [node c1]; apply HML].
    + intros c m. rewrite parsePrimary_S.
      destruct (nth_error tokens c) as [token |] eqn:Hc;
        [| intros E; injection E as <-; reflexivity].
      assert (Hcanon : canonicalToken token = true).
      { apply nth_error_In in Hc. exact (proj1 (Forall_forall _ _) canonical token Hc). }
      destruct (TokenType_eqb (type token) Tlparen) eqn:Elp.
      { apply Hbind; [apply HA |]. intros [node c1] m'.
        destruct (nth_error tokens c1) as [closing |];
          [| intros E; injection E as <-; reflexivity].
        destruct (TokenType_eqb (type closing) Trparen); [discriminate |].
        intros E; injection E as <-; reflexivity. }
      destruct (isOperator token "-") eqn:Eminus.
      { apply Hbind; [apply HP |]. intros [node c1] m'. discriminate. }
      destruct (isOperator token "+") eqn:Eplus; [apply HP |].
      destruct (TokenType_eqb (type token) Tnumber) eqn:Enum; [discriminate |].
      intros E. injection E as <-. now apply unexpected_token.
Qed.

End ParserErrors.

(** What [parse] throws is what [parseAddSub] throws from index 0. *)
Lemma parse_Throw_inv (ts : list Token) (message : string) :
  parse ts = Throw message -> parseAddSub ts (parseFuel ts) 0 = Throw message.
Proof.
  unfold parse.
  destruct (parseAddSub ts (parseFuel ts) 0) as [[ast c] | m |]; cbn [bind];
    congruence.
Qed.

(** X3: on canonical tokens [parse] throws one of five messages only:
    "Unexpected end of expression", "Missing closing parenthesis", and
    "Unexpected token: " followed by [*], [/] or [)]. *)
Theorem parse_throws_only (ts : list Token) (message : string) :
  Forall (fun token => canonicalToken token = true) ts ->
  parse ts = Throw message ->
  isParseError message = true.
Proof.
  intros Hcanon H. apply parse_Throw_inv in H.
  destruct (parse_throw_kinds ts Hcanon (parseFuel ts)) as (HA & _).
  exact (HA 0 message H).
Qed.

Lemma parse_throws_only_witness :
  isParseError "Unexpected token: )" = true.
Proof.
  apply (parse_throws_only [lparenToken; rparenToken]).
  - repeat constructor.
  - vm_compute. reflexivity.
Defined.

Lemma evaluate_returns (expression : string) : evaluate expression <> OutOfFuel.
Proof.
  unfold evaluate. destruct (isBlank expression); [discriminate |].
  pose proof (tokenize_returns expression) as Htok.
  destruct (tokenize expression) as [ts | m |]; cbn [bind rewrap];
    [| discriminate | contradiction].
  destruct (Nat.eqb (List.length ts) 0); [discriminate |].
  pose proof (parse_returns ts) as Hparse.
  destruct (parse ts) as [t | m |]; cbn [bind rewrap]; [| discriminate | contradiction].
  pose proof (evaluateNode_returns t) as Heval.
  destruct (evaluateNode t); [discriminate | discriminate | contradiction].
Qed.

(** X4: a message [evaluate] throws is "Calculation error: " followed by
    the tokenizer's complaint about a character of the input, by one of
    the five messages of the parser, or by "Division by zero". *)
Theorem evaluate_throws_only (expression message : string) :
  evaluate expression = Throw message ->
  exists cause,
    message = ("Calculation error: " ++ cause)%string
    /\ ((exists c,
            In c (codeUnits expression) /\ isStray c = true
            /\ cause = ("Invalid character in expression: " ++ String c "")%string)
        \/ isParseError cause = true
        \/ cause = "Division by zero"%string).
Proof.
  unfold evaluate. destruct (isBlank expression); [discriminate |].
  pose proof (tokenize_lexable expression) as Hlex.
  destruct (tokenize expression) as [ts | m |] eqn:Htok; cbn [bind rewrap].
  - destruct (Nat.eqb (List.length ts) 0); [discriminate |].
    pose proof (tokenize_loop_canonical _ _ _ _ _ (Forall_nil _) Htok) as Hcanon.
    destruct (parse ts) as [t | m |] eqn:Hparse; cbn [bind rewrap].
    + destruct (evaluateNode t) as [v | m |] eqn:Heval; try discriminate.
      intros E. injection E as <-. exists m. split; [reflexivity |].
      right. right. now apply evaluateNode_throws in Heval.
    + intros E. injection E as <-. exists m. split; [reflexivity |].
      right. left. apply parse_Throw_inv in Hparse.
      destruct (parse_throw_kinds ts Hcanon (parseFuel ts)) as (HA & _).
      exact (HA 0 m Hparse).
    + discriminate.
  - intros E. injection E as <-. exists m. split; [reflexivity |]. left.
    destruct (lexable false (codeUnits expression)).
    + destruct Hlex as (ts & Hts). discriminate.
    + destruct Hlex as (c & Hin & Hstray & Hc). exists c. repeat split; try assumption.
      congruence.
  - discriminate.
Qed.

Lemma evaluate_throws_only_witness :
  exists cause,
    "Calculation error: Unexpected end of expression"%string
    = ("Calculation error: " ++ cause)%string
    /\ ((exists c,
            In c (codeUnits "2 +") /\ isStray c = true
            /\ cause = ("Invalid character in expression: " ++ String c "")%string)
        \/ isParseError cause = true
        \/ cause = "Division by zero"%string).
Proof.
  apply (evaluate_throws_only "2 +"). vm_compute. reflexivity.
Defined.

(** [evaluateNode] returns a number or throws "Division by zero". *)
Lemma evaluateNode_cases (t : ExpressionNode) :
  (exists v, evaluateNode t = Ok v) \/ evaluateNode t = Throw "Division by zero".
Proof.
  pose proof (evaluateNode_returns t) as Hret.
  destruct (evaluateNode t) as [v | m |] eqn:Heval; [| | contradiction].
  - left. now exists v.
  - right. apply evaluateNode_throws in Heval. now destruct Heval as (-> & _).
Qed.

(** What [isValidExpression] accepts is blank, or has tokens that [parse]
    turns into a tree. *)
Lemma valid_parses (expression : string) :
  isValidExpression expression = Ok true ->
  evaluate expression = Ok (ofZ 0)
  \/ exists ts t, tokenize expression = Ok ts /\ ts <> [] /\ parse ts = Ok t.
Proof.
  unfold isValidExpression, evaluate.
  destruct (isBlank expression); [intros _; now left |].
  destruct (tokenize expression) as [ts | m |]; cbn [bind catchFalse rewrap];
    try discriminate.
  destruct ts as [| token ts]; [intros _; now left |]. cbn [List.length Nat.eqb].
  destruct (countParens (token :: ts) 0) as [final |]; [| discriminate].
  destruct (negb (final =? 0)%Z); [discriminate |].
  destruct (parse (token :: ts)) as [t | m |] eqn:Hparse;
    cbn [bind catchFalse rewrap]; try discriminate.
  intros _. right. exists (token :: ts), t.
  split; [reflexivity | split; [discriminate | exact Hparse]].
Qed.

(** X5: when [isValidExpression] returns [true], [evaluate] returns a
    number or fails with "Calculation error: Division by zero", and with
    nothing else: validation rules out every lexical and syntactic
    error. *)
Theorem valid_then_only_division_by_zero (expression : string) :
  isValidExpression expression = Ok true ->
  (exists v, evaluate expression = Ok v)
  \/ evaluate expression = Throw "Calculation error: Division by zero".
Proof.
  intros Hvalid.
  destruct (valid_parses _ Hvalid) as [-> | (ts & t & Htok & Hne & Hparse)];
    [left; now eexists |].
  rewrite (evaluate_tokens _ _ Htok Hne), Hparse. cbn [bind].
  destruct (evaluateNode_cases t) as [(v & ->) | ->]; cbn [rewrap].
  - left. now exists v.
  - now right.
Qed.

Lemma valid_then_only_division_by_zero_witness :
  (exists v, evaluate "(1 + 2) * 3" = Ok v)
  \/ evaluate "(1 + 2) * 3" = Throw "Calculation error: Division by zero".
Proof.
  apply valid_then_only_division_by_zero. vm_compute. reflexivity.
Defined.

(** ** Phrases of the grammar are balanced and valid *)

Lemma depth_app (a b : list Token) : depth (a ++ b) = (depth a + depth b)%Z.
Proof.
  induction a as [| x a IH]; cbn [app depth]; [lia | rewrite IH; lia].
Qed.

Lemma prefixesBalanced_app (a b : list Token) :
  prefixesBalanced a -> prefixesBalanced b -> prefixesBalanced (a ++ b).
Proof.
  intros Ha Hb n. rewrite firstn_app, depth_app.
  specialize (Ha n). specialize (Hb (n - List.length a)). lia.
Qed.

Lemma prefixesBalanced_cons (x : Token) (ts : list Token) :
  type x <> Trparen -> prefixesBalanced ts -> prefixesBalanced (x :: ts).
Proof.
  intros Hx Hts [| n]; cbn [firstn depth]; [lia |].
  specialize (Hts n). destruct (type x); try lia. now elim Hx.
Qed.

Lemma derives_balanced (tier : Tier) (ts : list Token) (t : ExpressionNode) :
  Derives tier ts t -> depth ts = 0%Z /\ prefixesBalanced ts.
Proof.
  induction 1 as
    [ n
    | ts t _ (IHd & IHp)
    | ts t _ (IHd & IHp)
    | ts t _ (IHd & IHp)
    | ts t _ IH
    | ts1 ts2 t1 t2 _ (IHd1 & IHp1) _ (IHd2 & IHp2)
    | ts1 ts2 t1 t2 _ (IHd1 & IHp1) _ (IHd2 & IHp2)
    | ts t _ IH
    | ts1 ts2 t1 t2 _ (IHd1 & IHp1) _ (IHd2 & IHp2)
    | ts1 ts2 t1 t2 _ (IHd1 & IHp1) _ (IHd2 & IHp2) ];
    try exact IH;
    try (split;
         [ rewrite depth_app; cbn [depth operatorToken type]; lia
         | apply prefixesBalanced_app; [assumption |];
           apply prefixesBalanced_cons; [discriminate | assumption] ]).
  - split; [reflexivity |]. intros [| [| k]]; cbn; lia.
  - split.
    + cbn [depth lparenToken type]. rewrite depth_app. cbn [depth rparenToken type]. lia.
    + intros [| j]; cbn [firstn depth lparenToken type]; [lia |].
      rewrite firstn_app, depth_app. specialize (IHp j).
      destruct (j - List.length ts) as [| k] eqn:E.
      * cbn [firstn depth]. lia.
      * rewrite firstn_all2 by lia. cbn [firstn depth rparenToken type].
        destruct k; cbn [firstn depth]; lia.
  - split; [exact IHd | apply prefixesBalanced_cons; [discriminate | assumption]].
  - split; [exact IHd | apply prefixesBalanced_cons; [discriminate | assumption]].
Qed.

(** X6: every input whose tokens form a phrase of the grammar is accepted
    by [isValidExpression]. *)
Theorem grammatical_input_is_valid (expression : string) (ts : list Token)
        (t : ExpressionNode) :
  tokenize expression = Ok ts -> Derives Additive ts t ->
  isValidExpression expression = Ok true.
Proof.
  intros Htok Hd. destruct (derives_balanced _ _ _ Hd) as (Hdepth & Hprefix).
  apply (isValidExpression_cases expression) with (ts := ts) (t := t).
  - exact (tokens_not_blank _ _ Htok (derives_nonempty _ _ _ Hd)).
  - exact Htok.
  - intros (n & Hn). specialize (Hprefix n). lia.
  - exact Hdepth.
  - now apply derives_parse.
Qed.

Lemma grammatical_input_is_valid_witness :
  isValidExpression "-(4)" = Ok true.
Proof.
  apply (grammatical_input_is_valid "-(4)"
           [operatorToken "-"; lparenToken; numberToken (ofZ 4); rparenToken]
           (UnaryNode OpSub (NumberNode (ofZ 4)))).
  - vm_compute. reflexivity.
  - apply D_multiplicative, D_primary, D_minus.
    apply (D_group [numberToken (ofZ 4)]). do 3 constructor.
Defined.

(** ** White space around an expression *)

Lemma skipn_cons_inv {A : Type} (l : list A) (i : nat) (x : A) (r : list A) :
  skipn i l = x :: r -> nth_error l i = Some x /\ skipn (S i) l = r.
Proof.
  revert i. induction l as [| y l IH]; intros [| i] H; simpl in *; try discriminate.
  - injection H as -> ->. now split.
  - now apply IH.
Qed.

Lemma nth_error_skipn_nil {A : Type} (l : list A) (i : nat) :
  skipn i l = [] -> nth_error l i = None.
Proof.
  intros H. apply nth_error_None.
  assert (E : List.length (skipn i l) = 0) by now rewrite H.
  rewrite length_skipn in E. lia.
Qed.

Lemma length_skipn_le {A : Type} (l l' : list A) (i i' : nat) :
  skipn i l = skipn i' l' -> List.length l - i = List.length l' - i'.
Proof.
  intros H. rewrite <- !length_skipn. now rewrite H.
Qed.

(** The outer loop reads the input from index [i] on, nothing else. *)
Lemma tokenize_loop_suffix (fuel : nat) :
  forall fuel' cs cs' i i' tokens,
  skipn i cs = skipn i' cs' ->
  List.length cs - i < fuel -> List.length cs' - i' < fuel' ->
  tokenize_loop fuel cs i tokens = tokenize_loop fuel' cs' i' tokens.
Proof.
  induction fuel as [| fuel IH]; intros fuel' cs cs' i i' tokens Hsuffix Hfuel Hfuel';
    [lia |].
  destruct fuel' as [| fuel']; [lia |].
  cbn [tokenize_loop].
  destruct (nth_error cs i) as [c |] eqn:Hc.
  2:{ rewrite (skipn_nth_None _ _ Hc) in Hsuffix. symmetry in Hsuffix.
      now rewrite (nth_error_skipn_nil _ _ Hsuffix). }
  pose proof (skipn_nth_Some _ _ _ Hc) as Hsplit.
  rewrite Hsplit in Hsuffix. symmetry in Hsuffix.
  apply skipn_cons_inv in Hsuffix. destruct Hsuffix as (Hc' & Hnext).
  rewrite Hc'.
  assert (Hi : i < List.length cs) by (apply nth_error_Some; congruence).
  assert (Hi' : i' < List.length cs') by (apply nth_error_Some; congruence).
  assert (Hstep : forall toks,
             tokenize_loop fuel cs (S i) toks = tokenize_loop fuel' cs' (S i') toks).
  { intros toks. apply IH; [now symmetry | lia | lia]. }
  destruct (isWhitespace c); [apply Hstep |].
  destruct (isDigit c) eqn:Edig.
  { rewrite !scanNumber_run by lia. cbn [bind].
    assert (Hsame : skipn i cs = skipn i' cs').
    { rewrite Hsplit. rewrite (skipn_nth_Some _ _ _ Hc'). now rewrite Hnext. }
    rewrite <- Hsame.
    assert (Hrun : 0 < List.length (numberRun (skipn i cs))).
    { rewrite Hsplit. simpl. unfold isNumberChar. rewrite Edig. simpl. lia. }
    apply IH.
    - rewrite (Nat.add_comm i), (Nat.add_comm i'), <- !skipn_skipn. now rewrite Hsame.
    - lia.
    - lia. }
  destruct (isOperatorChar c); [apply Hstep |].
  destruct (Ascii.eqb c "("); [apply Hstep |].
  destruct (Ascii.eqb c ")"); [apply Hstep |].
  reflexivity.
Qed.

Lemma tokenize_loop_blank_suffix (cs : list ascii) (fuel : nat) :
  forall i tokens,
  List.length cs - i < fuel ->
  forallb isWhitespace (skipn i cs) = true ->
  tokenize_loop fuel cs i tokens = Ok tokens.
Proof.
  induction fuel as [| fuel IH]; intros i tokens Hfuel Hblank; [lia |].
  cbn [tokenize_loop]. destruct (nth_error cs i) as [c |] eqn:Hc; [| reflexivity].
  assert (Hi : i < List.length cs) by (apply nth_error_Some; congruence).
  rewrite (skipn_nth_Some _ _ _ Hc) in Hblank. cbn [forallb] in Hblank.
  apply andb_prop in Hblank. destruct Hblank as (-> & Hblank).
  apply IH; [lia | exact Hblank].
Qed.

Lemma tokenize_loop_leading (ws cs : list ascii) :
  forallb isWhitespace ws = true ->
  forall fuel fuel' tokens,
  List.length (ws ++ cs) < fuel -> List.length cs < fuel' ->
  tokenize_loop fuel (ws ++ cs) 0 tokens = tokenize_loop fuel' cs 0 tokens.
Proof.
  induction ws as [| w ws IH]; intros Hws fuel fuel' tokens Hfuel Hfuel'.
  - apply tokenize_loop_suffix; [reflexivity | simpl in *; lia | lia].
  - cbn [forallb] in Hws. apply andb_prop in Hws. destruct Hws as (Hw & Hws).
    destruct fuel as [| fuel]; [lia |].
    cbn [tokenize_loop app nth_error]. rewrite Hw.
    rewrite <- (IH Hws (S (List.length (ws ++ cs))) fuel' tokens) by lia.
    apply tokenize_loop_suffix; [reflexivity | simpl in *; lia | lia].
Qed.

Lemma numberRun_app_whitespace (cs ws : list ascii) :
  forallb isWhitespace ws = true -> numberRun (cs ++ ws) = numberRun cs.
Proof.
  intros Hws. induction cs as [| c cs IH]; cbn [app numberRun].
  - destruct ws as [| w ws]; [reflexivity |]. cbn [forallb] in Hws.
    apply andb_prop in Hws. destruct Hws as (Hw & _). cbn [numberRun].
    destruct (char_classes w) as (H & _). now rewrite (H Hw).
  - now rewrite IH.
Qed.

Lemma tokenize_loop_trailing (cs ws : list ascii) :
  forallb isWhitespace ws = true ->
  forall fuel fuel' i tokens,
  List.length (cs ++ ws) - i < fuel -> List.length cs - i < fuel' ->
  tokenize_loop fuel (cs ++ ws) i tokens = tokenize_loop fuel' cs i tokens.
Proof.
  intros Hws. induction fuel as [| fuel IH]; intros fuel' i tokens Hfuel Hfuel'; [lia |].
  destruct fuel' as [| fuel']; [lia |].
  destruct (nth_error cs i) as [c |] eqn:Hc.
  - assert (Hi : i < List.length cs) by (apply nth_error_Some; congruence).
    rewrite length_app in Hfuel.
    cbn [tokenize_loop]. rewrite nth_error_app1 by exact Hi. rewrite Hc.
    assert (Hstep : forall toks,
               tokenize_loop fuel (cs ++ ws) (S i) toks
               = tokenize_loop fuel' cs (S i) toks).
    { intros toks. apply IH; [rewrite length_app |]; lia. }
    destruct (isWhitespace c); [apply Hstep |].
    destruct (isDigit c) eqn:Edig.
    { rewrite !scanNumber_run by (rewrite ?length_app; lia). cbn [bind].
      assert (Hskip : skipn i (cs ++ ws) = skipn i cs ++ ws).
      { rewrite skipn_app. replace (i - List.length cs) with 0 by lia. reflexivity. }
      rewrite Hskip, (numberRun_app_whitespace _ _ Hws).
      assert (Hrun : 0 < List.length (numberRun (skipn i cs))).
      { rewrite (skipn_nth_Some _ _ _ Hc). simpl. unfold isNumberChar.
        rewrite Edig. simpl. lia. }
      apply IH; [rewrite length_app |]; lia. }
    destruct (isOperatorChar c); [apply Hstep |].
    destruct (Ascii.eqb c "("); [apply Hstep |].
    destruct (Ascii.eqb c ")"); [apply Hstep |].
    reflexivity.
  - assert (Hi : List.length cs <= i) by (now apply nth_error_None).
    rewrite (tokenize_loop_blank_suffix cs (S fuel') i tokens Hfuel')
      by (now rewrite skipn_all2).
    apply tokenize_loop_blank_suffix; [exact Hfuel |].
    rewrite skipn_app, (skipn_all2 cs) by exact Hi. cbn [app].
    now apply forallb_skipn.
Qed.

Lemma tokenize_trim (before expression after : string) :
  isBlank before = true -> isBlank after = true ->
  tokenize (before ++ expression ++ after)%string = tokenize expression.
Proof.
  unfold isBlank, tokenize. intros Hb Ha. rewrite !codeUnits_append.
  rewrite (tokenize_loop_leading _ _ Hb _
             (S (List.length (codeUnits expression ++ codeUnits after))) []) by lia.
  apply (tokenize_loop_trailing _ _ Ha); lia.
Qed.

(** X7: white space before and after an expression changes nothing: the
    tokens, [evaluate] and [isValidExpression] are those of the expression
    alone. *)
Theorem surrounding_whitespace_is_ignored (before expression after : string) :
  (forall c, In c (codeUnits before) -> isWhitespace c = true) ->
  (forall c, In c (codeUnits after) -> isWhitespace c = true) ->
  tokenize (before ++ expression ++ after)%string = tokenize expression
  /\ evaluate (before ++ expression ++ after)%string = evaluate expression
  /\ isValidExpression (before ++ expression ++ after)%string
     = isValidExpression expression.
Proof.
  intros Hbefore Hafter.
  assert (Hb : isBlank before = true) by (now apply forallb_forall).
  assert (Ha : isBlank after = true) by (now apply forallb_forall).
  pose proof (tokenize_trim before expression after Hb Ha) as Htok.
  assert (Hblank : isBlank (before ++ expression ++ after)%string = isBlank expression).
  { unfold isBlank in *. rewrite !codeUnits_append, !forallb_app, Hb, Ha.
    now rewrite andb_true_r. }
  split; [exact Htok |].
  unfold evaluate, isValidExpression. now rewrite Hblank, Htok.
Qed.

Lemma surrounding_whitespace_is_ignored_witness :
  tokenize ("  " ++ "2 + 3" ++ " ")%string = tokenize "2 + 3"
  /\ evaluate ("  " ++ "2 + 3" ++ " ")%string = evaluate "2 + 3"
  /\ isValidExpression ("  " ++ "2 + 3" ++ " ")%string = isValidExpression "2 + 3".
Proof.
  apply surrounding_whitespace_is_ignored.
  - intros c [<- | [<- | []]]; reflexivity.
  - intros c [<- | []]; reflexivity.
Defined.

(** ** A numeral alone *)

Lemma numberRun_all (cs : list ascii) :
  forallb isNumberChar cs = true -> numberRun cs = cs.
Proof.
  induction cs as [| c cs IH]; cbn [forallb numberRun]; [reflexivity |].
  intros H. apply andb_prop in H. destruct H as (-> & H). now rewrite IH.
Qed.

Lemma tokenize_numeral (c : ascii) (cs : list ascii) :
  isDigit c = true -> forallb isNumberChar cs = true ->
  let numeral := string_of_list_ascii (c :: cs) in
  tokenize numeral = Ok [numberToken (parseFloat numeral)].
Proof.
  intros Hc Hcs numeral.
  assert (Hunits : codeUnits numeral = c :: cs)
    by apply list_ascii_of_string_of_list_ascii.
  assert (Hrun : numberRun (c :: cs) = c :: cs).
  { apply numberRun_all. cbn [forallb]. unfold isNumberChar at 1. now rewrite Hc, Hcs. }
  assert (Hws : isWhitespace c = false).
  { destruct (char_classes c) as (H & _). destruct (isWhitespace c); [| reflexivity].
    specialize (H eq_refl). unfold isNumberChar in H. now rewrite Hc in H. }
  unfold tokenize. rewrite Hunits. cbn [tokenize_loop nth_error]. rewrite Hws, Hc.
  rewrite scanNumber_run by (simpl; lia). cbn [bind skipn]. rewrite Hrun.
  cbn [append]. change (String c (string_of_list_ascii cs)) with numeral.
  unfold numeral at 1. rewrite (parseFloat_isNaN c cs Hc).
  rewrite (tokenize_loop_blank_suffix (c :: cs)); [reflexivity | simpl; lia |].
  now rewrite skipn_all2 by (simpl; lia).
Qed.

(** X8: a run of digits and dots that begins with a digit is one number
    token, and [evaluate] returns what [parseFloat] makes of it (so
    ["1.2.3"] is 1.2 and ["7."] is 7). *)
Theorem evaluate_numeral (c : ascii) (cs : list ascii) :
  isDigit c = true -> forallb isNumberChar cs = true ->
  let numeral := string_of_list_ascii (c :: cs) in
  tokenize numeral = Ok [numberToken (parseFloat numeral)]
  /\ evaluate numeral = Ok (parseFloat numeral).
Proof.
  intros Hc Hcs numeral.
  pose proof (tokenize_numeral c cs Hc Hcs) as Htok. fold numeral in Htok.
  split; [exact Htok |].
  rewrite (evaluate_tokens _ _ Htok) by discriminate.
  rewrite (derives_parse [numberToken (parseFloat numeral)] (NumberNode (parseFloat numeral)))
    by (do 3 constructor).
  reflexivity.
Qed.

Lemma evaluate_numeral_witness :
  tokenize "1.2.3" = Ok [numberToken (parseFloat "1.2.3")]
  /\ evaluate "1.2.3" = Ok (parseFloat "1.2.3").
Proof.
  apply (evaluate_numeral "1" [ "."; "2"; "."; "3" ]%char); reflexivity.
Defined.

(** * Properties of the components *)

(** ** Strings *)

Lemma string_of_codeUnits (s : string) : string_of_list_ascii (codeUnits s) = s.
Proof. apply string_of_list_ascii_of_string. Qed.

Lemma codeUnits_of_list (cs : list ascii) : codeUnits (string_of_list_ascii cs) = cs.
Proof. apply list_ascii_of_string_of_list_ascii. Qed.

Lemma nonempty_codeUnits (s : string) : s <> ""%string <-> codeUnits s <> [].
Proof.
  destruct s; simpl; split; intros H; try discriminate; now elim H.
Qed.

Lemma append_nonempty_l (a b : string) : a <> ""%string -> (a ++ b)%string <> ""%string.
Proof. destruct a; [intros H; now elim H | discriminate]. Qed.

Lemma append_nonempty_r (a b : string) : b <> ""%string -> (a ++ b)%string <> ""%string.
Proof. destruct a; [now simpl | discriminate]. Qed.

Lemma dropLast_append (s : string) (c : ascii) :
  dropLast (s ++ String c "")%string = s.
Proof.
  unfold dropLast. rewrite codeUnits_append. simpl codeUnits at 2.
  change (list_ascii_of_string (String c "")) with [c].
  rewrite removelast_last. apply string_of_codeUnits.
Qed.

Lemma dropLast_nonempty (s : string) :
  s <> ""%string -> Nat.eqb (String.length s) 1 = false -> dropLast s <> ""%string.
Proof.
  unfold dropLast. rewrite length_codeUnits. intros Hs Hlen.
  apply nonempty_codeUnits in Hs.
  destruct (codeUnits s) as [| c [| c' cs]]; [now elim Hs | discriminate |].
  discriminate.
Qed.

Lemma isSingleDigit_inv (value : string) :
  isSingleDigit value = true -> exists c, value = String c "" /\ isDigit c = true.
Proof.
  destruct value as [| c [| c' value]]; try discriminate. intros H. now exists c.
Qed.

(** ** Number-to-string conversion is never empty *)

Lemma render_nonempty (s n k : Z) : render s n k <> ""%string.
Proof.
  unfold render. destruct (digitsOf_head s) as (c & r & -> & _).
  destruct ((k <=? n)%Z && (n <=? 21)%Z); [discriminate |].
  destruct ((0 <? n)%Z && (n <=? 21)%Z).
  { apply append_nonempty_r. discriminate. }
  destruct ((-6 <? n)%Z && (n <=? 0)%Z); [discriminate |].
  destruct (k =? 1)%Z; [discriminate |].
  apply append_nonempty_r. discriminate.
Qed.

Lemma formatNumber_nonempty (num : number) (maxDecimals : Z) :
  formatNumber num maxDecimals <> ""%string.
Proof.
  unfold formatNumber. destruct (negb (isFinite num)); [discriminate |].
  generalize (div (round (mul num (pow10 maxDecimals))) (pow10 maxDecimals)) as x.
  intros x. destruct x as [s | s | | s m e]; unfold toString; try discriminate.
  - destruct s; discriminate.
  - match goal with
    | |- context [shortest ?f ?y ?p ?q ?n ?k] =>
        destruct (shortest f y p q n k) as [[s' n'] k']
    end.
    apply append_nonempty_r, render_nonempty.
Qed.

(** ** [CalculatorPage]: the click handler *)

Section CalculatorPageFacts.

Import CalculatorPage.

Lemma isOperatorString_inv (op : string) :
  isOperatorString op = true ->
  op = "+"%string \/ op = "-"%string \/ op = "*"%string \/ op = "/"%string.
Proof.
  unfold isOperatorString. intros H.
  repeat (apply orb_prop in H; destruct H as [H | H]);
    apply String.eqb_eq in H; auto.
Qed.

(** X9: a click never fails, and the only messages it can leave in
    [error] are "Invalid expression" and "Calculation error: Division by
    zero", both after [=] only and with the expression unchanged; every
    other click clears the error.  No lexical or syntactic message of the
    engine reaches the display. *)
Theorem click_errors (st : State) (value : string) :
  exists st',
    handleButtonClick st value = Ok st'
    /\ (error st' = None
        \/ (value = "="%string /\ expression st' = expression st
            /\ (error st' = Some "Invalid expression"%string
                \/ error st' = Some "Calculation error: Division by zero"%string))).
Proof.
  unfold handleButtonClick.
  destruct (isSingleDigit value).
  { repeat match goal with
           | |- context [if ?b then _ else _] => destruct b
           end; eexists; split; try reflexivity; now left. }
  destruct (String.eqb value ".").
  { repeat match goal with
           | |- context [if ?b then _ else _] => destruct b
           end; eexists; split; try reflexivity; now left. }
  destruct (String.eqb value "clear"); [eexists; split; [reflexivity | now left] |].
  destruct (String.eqb value "delete").
  { destruct (Nat.eqb _ 1); eexists; split; try reflexivity; now left. }
  destruct (isOperatorString value).
  { destruct (String.eqb (expression st) "0" && negb (String.eqb value "-"));
      [eexists; split; [reflexivity | now left] |].
    destruct (result st) as [r |]; [destruct (isNewExpression st) |];
      repeat match goal with
             | |- context [if ?b then _ else _] => destruct b
             end; eexists; split; try reflexivity; now left. }
  destruct (String.eqb value "(").
  { repeat match goal with
           | |- context [if ?b then _ else _] => destruct b
           end; eexists; split; try reflexivity; now left. }
  destruct (String.eqb value ")").
  { repeat match goal with
           | |- context [if ?b then _ else _] => destruct b
           end; eexists; split; try reflexivity; now left. }
  destruct (String.eqb value "=") eqn:Eeq; [| eexists; split; [reflexivity | now left]].
  apply String.eqb_eq in Eeq. subst value.
  destruct (isValidExpression_returns (expression st)) as ([|] & Hvalid); rewrite Hvalid.
  - cbn [negb]. cbv iota.
    destruct (valid_parses _ Hvalid) as [-> | (ts & t & Htok & Hne & Hparse)];
      [eexists; split; [reflexivity | now left] |].
    rewrite (evaluate_tokens _ _ Htok Hne), Hparse. cbn [bind].
    destruct (evaluateNode_cases t) as [(v & ->) | ->]; cbn [rewrap].
    + eexists; split; [reflexivity | now left].
    + eexists; split; [reflexivity |]. right. repeat split. now right.
  - cbn [negb]. cbv iota. eexists; split; [reflexivity |]. right. repeat split. now left.
Qed.

Lemma mainDisplay_nonempty (st : State) :
  expression st <> ""%string -> mainDisplay st <> ""%string.
Proof.
  intros He. unfold mainDisplay, truthy.
  destruct (error st) as [e |].
  - destruct (String.eqb e "") eqn:E; cbn [negb].
    + destruct (result st) as [r |].
      * destruct (String.eqb r "") eqn:Er; cbn [negb].
        -- destruct (String.eqb (expression st) "0"); [discriminate | exact He].
        -- now apply String.eqb_neq in Er.
      * destruct (String.eqb (expression st) "0"); [discriminate | exact He].
    + now apply String.eqb_neq in E.
  - destruct (result st) as [r |].
    + destruct (String.eqb r "") eqn:Er; cbn [negb].
      * destruct (String.eqb (expression st) "0"); [discriminate | exact He].
      * now apply String.eqb_neq in Er.
    + destruct (String.eqb (expression st) "0"); [discriminate | exact He].
Qed.

Lemma click_keeps_expression (st st' : State) (value : string) :
  expression st <> ""%string ->
  handleButtonClick st value = Ok st' ->
  expression st' <> ""%string.
Proof.
  intros He. unfold handleButtonClick.
  assert (Hop : forall a : string, (a ++ " " ++ value ++ " ")%string <> ""%string).
  { intros a. apply append_nonempty_r. discriminate. }
  destruct (isSingleDigit value) eqn:Edig.
  { apply isSingleDigit_inv in Edig. destruct Edig as (c & -> & _).
    destruct (isNewExpression st && String.eqb (expression st) "0");
      [| destruct (isNewExpression st)]; intros H; injection H as <-;
        cbn; try discriminate. now apply append_nonempty_l. }
  destruct (String.eqb value ".").
  { destruct (isNewExpression st); [| destruct (negb (includes (expression st) "."))];
      intros H; injection H as <-; cbn; try discriminate; try exact He.
    now apply append_nonempty_l. }
  destruct (String.eqb value "clear"); [intros H; injection H as <-; discriminate |].
  destruct (String.eqb value "delete").
  { destruct (Nat.eqb (String.length (expression st)) 1) eqn:Elen;
      intros H; injection H as <-; cbn; [discriminate |].
    now apply dropLast_nonempty. }
  destruct (isOperatorString value).
  { destruct (String.eqb (expression st) "0" && negb (String.eqb value "-"));
      [intros H; injection H as <-; exact He |].
    destruct (result st) as [r |]; [destruct (isNewExpression st) |];
      try destruct (isOperatorString (lastChar (trim (expression st)))
                    && negb (String.eqb value "-"));
      intros H; injection H as <-; cbn; apply Hop. }
  destruct (String.eqb value "(").
  { destruct (isNewExpression st);
      [| destruct (hasDigit (lastChar (trim (expression st)))
                   || String.eqb (lastChar (trim (expression st))) ")")];
      intros H; injection H as <-; cbn; try discriminate; now apply append_nonempty_l. }
  destruct (String.eqb value ")").
  { destruct (String.eqb (lastChar (trim (expression st))) ""
              || hasDigitOrClosing (lastChar (trim (expression st))));
      intros H; injection H as <-; cbn; [now apply append_nonempty_l | exact He]. }
  destruct (String.eqb value "=").
  { destruct (isValidExpression (expression st)) as [[|] | m |]; try discriminate.
    - cbn [negb]. cbv iota.
      destruct (evaluate (expression st)) as [v | m |]; try discriminate;
        intros H; injection H as <-; cbn; [apply formatNumber_nonempty | exact He].
    - intros H; injection H as <-; exact He.
    - intros H; injection H as <-; exact He. }
  intros H; injection H as <-; exact He.
Qed.

(** X10: whatever is clicked, starting from the page as it opens, the
    expression never becomes the empty string and the main display is
    never blank. *)
Theorem display_never_blank (values : list string) (st : State) :
  clicks initial values = Ok st ->
  expression st <> ""%string /\ mainDisplay st <> ""%string.
Proof.
  assert (H : forall vs st0 st1,
             expression st0 <> ""%string -> clicks st0 vs = Ok st1 ->
             expression st1 <> ""%string).
  { induction vs as [| v vs IH]; intros st0 st1 He; cbn [clicks].
    - intros E. injection E as <-. exact He.
    - intros E. apply bind_Ok_inv in E. destruct E as (st' & Hclick & Hrest).
      apply (IH st' st1); [| exact Hrest].
      exact (click_keeps_expression _ _ _ He Hclick). }
  intros Hrun.
  assert (He : expression st <> ""%string) by (apply (H values initial st); [discriminate | exact Hrun]).
  split; [exact He | now apply mainDisplay_nonempty].
Qed.

Lemma display_never_blank_witness :
  expression {| expression := "0"; result := None; error := None;
                isNewExpression := true |} <> ""%string
  /\ mainDisplay {| expression := "0"; result := None; error := None;
                    isNewExpression := true |} <> ""%string.
Proof.
  apply (display_never_blank ["5"; "delete"]). vm_compute. reflexivity.
Defined.

Lemma isNumeral_inv (s : string) :
  isNumeral s = true ->
  exists c cs,
    s = string_of_list_ascii (c :: cs) /\ isDigit c = true
    /\ forallb isNumberChar cs = true.
Proof.
  unfold isNumeral. intros H. rewrite <- (string_of_codeUnits s).
  destruct (codeUnits s) as [| c cs]; [discriminate |].
  apply andb_prop in H. destruct H as (Hc & Hcs). now exists c, cs.
Qed.

Lemma isNumeral_append (s : string) (c : ascii) :
  isNumeral s = true -> isNumberChar c = true ->
  isNumeral (s ++ String c "")%string = true.
Proof.
  unfold isNumeral. rewrite codeUnits_append.
  destruct (codeUnits s) as [| d ds]; [discriminate |].
  intros H Hc. apply andb_prop in H. destruct H as (Hd & Hds).
  cbn [app]. rewrite Hd, forallb_app, Hds. cbn. now rewrite Hc.
Qed.

Lemma forallb_removelast {A : Type} (f : A -> bool) (l : list A) :
  forallb f l = true -> forallb f (removelast l) = true.
Proof.
  induction l as [| x l IH]; [reflexivity |].
  intros H. cbn [forallb] in H. apply andb_prop in H. destruct H as (Hx & Hl).
  destruct l as [| y l]; [reflexivity |].
  change (removelast (x :: y :: l)) with (x :: removelast (y :: l)).
  cbn [forallb]. now rewrite Hx, IH.
Qed.

Lemma isNumeral_dropLast (s : string) :
  isNumeral s = true -> Nat.eqb (String.length s) 1 = false ->
  isNumeral (dropLast s) = true.
Proof.
  unfold isNumeral, dropLast. rewrite length_codeUnits, codeUnits_of_list.
  destruct (codeUnits s) as [| c [| c' cs]]; try discriminate.
  intros H _. apply andb_prop in H. destruct H as (Hc & Hcs).
  change (removelast (c :: c' :: cs)) with (c :: removelast (c' :: cs)).
  cbv iota. now rewrite Hc, forallb_removelast.
Qed.

Lemma edit_key_keeps_numeral (st : State) (value : string) :
  isEditKey value = true -> isNumeral (expression st) = true ->
  exists st', handleButtonClick st value = Ok st' /\ isNumeral (expression st') = true.
Proof.
  intros Hkey Hnum. unfold handleButtonClick.
  destruct (isSingleDigit value) eqn:Edig.
  { apply isSingleDigit_inv in Edig. destruct Edig as (c & -> & Hc).
    assert (Hsingle : isNumeral (String c "") = true).
    { unfold isNumeral. cbn. now rewrite Hc. }
    assert (Hnc : isNumberChar c = true) by (unfold isNumberChar; now rewrite Hc).
    destruct (isNewExpression st && String.eqb (expression st) "0");
      [| destruct (isNewExpression st)]; eexists; (split; [reflexivity |]); cbn;
        try exact Hsingle. now apply isNumeral_append. }
  destruct (String.eqb value ".") eqn:Edot.
  { destruct (isNewExpression st); [| destruct (negb (includes (expression st) "."))];
      eexists; (split; [reflexivity |]); cbn; try reflexivity; try exact Hnum.
    now apply isNumeral_append. }
  destruct (String.eqb value "clear") eqn:Eclear; [eexists; split; reflexivity |].
  destruct (String.eqb value "delete") eqn:Edel.
  { destruct (Nat.eqb (String.length (expression st)) 1) eqn:Elen;
      eexists; (split; [reflexivity |]); cbn; [reflexivity |].
    now apply isNumeral_dropLast. }
  unfold isEditKey in Hkey. rewrite Edig in Hkey.
  repeat (apply orb_prop in Hkey; destruct Hkey as [Hkey | Hkey]); congruence.
Qed.

Lemma equals_on_numeral (st : State) :
  isNumeral (expression st) = true ->
  let formatted := formatNumber (parseFloat (expression st)) 10 in
  handleButtonClick st "=" =
  Ok {| expression := formatted; result := Some formatted; error := None;
        isNewExpression := true |}.
Proof.
  intros Hnum formatted. destruct (isNumeral_inv _ Hnum) as (c & cs & He & Hc & Hcs).
  pose proof (tokenize_numeral c cs Hc Hcs) as Htok. cbv zeta in Htok.
  rewrite <- He in Htok.
  assert (Hd : Derives Additive [numberToken (parseFloat (expression st))]
                 (NumberNode (parseFloat (expression st)))) by (do 3 constructor).
  assert (Heval : evaluate (expression st) = Ok (parseFloat (expression st))).
  { rewrite (evaluate_tokens _ _ Htok) by discriminate.
    now rewrite (derives_parse _ _ Hd). }
  assert (Hvalid : isValidExpression (expression st) = Ok true).
  { destruct (derives_balanced _ _ _ Hd) as (Hdepth & Hprefix).
    apply (isValidExpression_cases (expression st))
      with (ts := [numberToken (parseFloat (expression st))])
           (t := NumberNode (parseFloat (expression st))).
    - exact (tokens_not_blank _ _ Htok (derives_nonempty _ _ _ Hd)).
    - exact Htok.
    - intros (n & Hn). specialize (Hprefix n). lia.
    - exact Hdepth.
    - now apply derives_parse. }
  unfold handleButtonClick. cbn [isSingleDigit String.eqb Ascii.eqb Bool.eqb andb].
  cbn. rewrite Hvalid, Heval. reflexivity.
Qed.

(** X11: after any sequence of digit, point, DEL and C clicks on the page
    as it opens, the expression is a numeral, and [=] then reports no
    error: it shows [parseFloat] of the numeral, formatted, as the result
    and as the new expression. *)
Theorem editing_then_equals_succeeds (values : list string) :
  forallb isEditKey values = true ->
  exists st,
    clicks initial values = Ok st
    /\ isNumeral (expression st) = true
    /\ handleButtonClick st "=" =
       Ok {| expression := formatNumber (parseFloat (expression st)) 10;
             result := Some (formatNumber (parseFloat (expression st)) 10);
             error := None;
             isNewExpression := true |}.
Proof.
  assert (H : forall vs st0,
             forallb isEditKey vs = true -> isNumeral (expression st0) = true ->
             exists st, clicks st0 vs = Ok st /\ isNumeral (expression st) = true).
  { induction vs as [| v vs IH]; intros st0 Hkeys Hnum; cbn [clicks].
    - now exists st0.
    - cbn [forallb] in Hkeys. apply andb_prop in Hkeys. destruct Hkeys as (Hv & Hvs).
      destruct (edit_key_keeps_numeral st0 v Hv Hnum) as (st' & -> & Hnum').
      cbn [bind]. now apply IH. }
  intros Hkeys. destruct (H values initial Hkeys eq_refl) as (st & Hrun & Hnum).
  exists st. split; [exact Hrun | split; [exact Hnum |]].
  now apply equals_on_numeral.
Qed.

Lemma editing_then_equals_succeeds_witness :
  exists st,
    clicks initial ["1"; "."; "5"; "."; "delete"; "7"]%string = Ok st
    /\ isNumeral (expression st) = true
    /\ handleButtonClick st "=" =
       Ok {| expression := formatNumber (parseFloat (expression st)) 10;
             result := Some (formatNumber (parseFloat (expression st)) 10);
             error := None;
             isNewExpression := true |}.
Proof.
  apply editing_then_equals_succeeds. reflexivity.
Defined.

(** X12: clicking the digits of a numeral one after the other on the page
    as it opens leaves exactly that numeral as the expression (a leading
    [0] of the display is replaced, not kept). *)
Theorem typing_digits (c : ascii) (cs : list ascii) :
  isDigit c = true -> forallb isDigit cs = true ->
  clicks initial (map (fun d => String d "") (c :: cs)) =
  Ok {| expression := string_of_list_ascii (c :: cs); result := None; error := None;
        isNewExpression := false |}.
Proof.
  intros Hc Hcs.
  assert (H : forall ds e,
             forallb isDigit ds = true ->
             clicks {| expression := e; result := None; error := None;
                       isNewExpression := false |}
                    (map (fun d => String d "") ds) =
             Ok {| expression := (e ++ string_of_list_ascii ds)%string; result := None;
                   error := None; isNewExpression := false |}).
  { induction ds as [| d ds IH]; intros e Hds; cbn [map clicks].
    - cbn. now rewrite append_nil_r.
    - cbn [forallb] in Hds. apply andb_prop in Hds. destruct Hds as (Hd & Hds).
      unfold handleButtonClick at 1. cbn [isSingleDigit]. rewrite Hd.
      unfold setResult, setIsNewExpression, setExpression, setError.
      cbn [isNewExpression andb expression result error bind].
      rewrite (IH _ Hds). cbn [string_of_list_ascii].
      now rewrite append_assoc. }
  cbn [map clicks]. unfold handleButtonClick at 1. cbn [isSingleDigit]. rewrite Hc.
  unfold setResult, setIsNewExpression, setExpression, setError, initial.
  cbn [isNewExpression andb expression result error bind String.eqb Ascii.eqb Bool.eqb].
  rewrite (H cs _ Hcs). reflexivity.
Qed.

Lemma typing_digits_witness :
  clicks initial (map (fun d => String d "") ["4"; "0"; "2"]%char) =
  Ok {| expression := string_of_list_ascii ["4"; "0"; "2"]%char; result := None;
        error := None; isNewExpression := false |}.
Proof.
  apply typing_digits; reflexivity.
Defined.

Lemma delete_click (st : State) :
  handleButtonClick st "delete" =
  Ok (setResult None
        (if Nat.eqb (String.length (expression st)) 1
         then setIsNewExpression true (setExpression "0" (setError None st))
         else setExpression (dropLast (expression st)) (setError None st))).
Proof. reflexivity. Qed.

(** X13: DEL undoes a digit: on an expression being edited, a digit click
    followed by DEL gives the expression back (with result and error
    cleared). *)
Theorem digit_then_delete (st : State) (c : ascii) :
  isDigit c = true -> isNewExpression st = false -> expression st <> ""%string ->
  clicks st [String c ""; "delete"%string] =
  Ok {| expression := expression st; result := None; error := None;
        isNewExpression := false |}.
Proof.
  intros Hc Hnew He. cbn [clicks]. unfold handleButtonClick at 1.
  cbn [isSingleDigit]. rewrite Hc, Hnew. cbn [andb bind].
  rewrite delete_click.
  unfold setResult, setIsNewExpression, setExpression, setError.
  cbn [isNewExpression expression result error].
  assert (Hlen : Nat.eqb (String.length (expression st ++ String c "")) 1 = false).
  { rewrite length_codeUnits, codeUnits_append. apply nonempty_codeUnits in He.
    destruct (codeUnits (expression st)) as [| x xs]; [now elim He | now destruct xs]. }
  rewrite Hlen. cbn [isNewExpression expression result error].
  now rewrite dropLast_append.
Qed.

Lemma digit_then_delete_witness :
  clicks {| expression := "(2"; result := None; error := None;
            isNewExpression := false |} ["7"; "delete"]%string =
  Ok {| expression := "(2"; result := None; error := None;
        isNewExpression := false |}.
Proof.
  apply (digit_then_delete
           {| expression := "(2"; result := None; error := None;
              isNewExpression := false |} "7"); [reflexivity | reflexivity | discriminate].
Defined.

Lemma operator_click (st : State) (op : string) :
  isOperatorString op = true ->
  handleButtonClick st op =
  if String.eqb (expression st) "0" && negb (String.eqb op "-") then Ok (setError None st)
  else
    Ok (setIsNewExpression true
          (let appended :=
             if isOperatorString (lastChar (trim (expression st)))
                && negb (String.eqb op "-")
             then setExpression
                    (dropLast (trim (expression st)) ++ " " ++ op ++ " ")%string
                    (setError None st)
             else setExpression (expression st ++ " " ++ op ++ " ")%string
                    (setError None st) in
           match result st with
           | Some r =>
               if isNewExpression st
               then setResult None
                      (setExpression (r ++ " " ++ op ++ " ")%string (setError None st))
               else appended
           | None => appended
           end)).
Proof.
  intros Hop. apply isOperatorString_inv in Hop.
  destruct Hop as [-> | [-> | [-> | ->]]]; reflexivity.
Qed.

(** X14: an operator click that is accepted (the expression is not ["0"],
    or the operator is [-]) sets [isNewExpression], so the digit clicked
    next replaces the whole expression: what was typed before the
    operator, and the operator, are gone. *)
Theorem operator_then_digit (st : State) (op : string) (c : ascii) :
  isOperatorString op = true -> isDigit c = true ->
  expression st <> "0"%string \/ op = "-"%string ->
  clicks st [op; String c ""] =
  Ok {| expression := String c ""; result := None; error := None;
        isNewExpression := false |}.
Proof.
  intros Hop Hc Haccepted.
  assert (Hgate : String.eqb (expression st) "0" && negb (String.eqb op "-") = false).
  { destruct Haccepted as [He | ->]; [| now rewrite andb_false_r].
    apply String.eqb_neq in He. now rewrite He. }
  assert (Hfirst : exists st1,
             handleButtonClick st op = Ok st1 /\ isNewExpression st1 = true).
  { rewrite (operator_click st op Hop), Hgate. eexists. split; reflexivity. }
  destruct Hfirst as (st1 & Hclick & Hnew).
  cbn [clicks]. rewrite Hclick. cbn [bind].
  unfold handleButtonClick. cbn [isSingleDigit]. rewrite Hc, Hnew.
  destruct (String.eqb (expression st1) "0"); reflexivity.
Qed.

Lemma operator_then_digit_witness :
  clicks {| expression := "2"; result := None; error := None;
            isNewExpression := false |} ["+"; "3"]%string =
  Ok {| expression := "3"; result := None; error := None; isNewExpression := false |}.
Proof.
  apply (operator_then_digit
           {| expression := "2"; result := None; error := None;
              isNewExpression := false |} "+" "3"); [reflexivity | reflexivity |].
  left. discriminate.
Defined.

End CalculatorPageFacts.

(** ** [OperatorButtonsShowcase]: the click history *)

Lemma sliceLast_length {A : Type} (n : nat) (l : list A) :
  List.length (OperatorButtonsShowcase.sliceLast n l) = Nat.min n (List.length l).
Proof. unfold OperatorButtonsShowcase.sliceLast. rewrite length_skipn. lia. Qed.

Lemma sliceLast_app {A : Type} (n : nat) (l m : list A) :
  OperatorButtonsShowcase.sliceLast n (OperatorButtonsShowcase.sliceLast n l ++ m)
  = OperatorButtonsShowcase.sliceLast n (l ++ m).
Proof.
  unfold OperatorButtonsShowcase.sliceLast.
  rewrite !length_app, length_skipn.
  destruct (Nat.le_gt_cases (List.length l) n) as [Hle | Hgt].
  - replace (List.length l - n) with 0 by lia. cbn [skipn].
    f_equal. lia.
  - rewrite (skipn_app (List.length l + List.length m - n)).
    rewrite (skipn_app (List.length l - (List.length l - n) + List.length m - n)).
    rewrite length_skipn.
    rewrite skipn_skipn.
    replace (List.length l - (List.length l - n) + List.length m - n
             + (List.length l - n)) with (List.length l + List.length m - n) by lia.
    f_equal. f_equal. lia.
Qed.

(** X15: the showcase keeps the last five clicks, oldest first, and the
    last click: after any sequence of clicks from the start,
    [clickHistory] is the last five values clicked (all of them when
    there were fewer) and never longer than five. *)
Theorem history_is_last_five (values : list string) :
  let st := OperatorButtonsShowcase.clicks OperatorButtonsShowcase.initial values in
  OperatorButtonsShowcase.clickHistory st = OperatorButtonsShowcase.sliceLast 5 values
  /\ List.length (OperatorButtonsShowcase.clickHistory st) <= 5
  /\ OperatorButtonsShowcase.lastClicked st
     = match rev values with
       | [] => None
       | value :: _ => Some value
       end.
Proof.
  assert (H : forall vs st,
             List.length (OperatorButtonsShowcase.clickHistory st) <= 5 ->
             OperatorButtonsShowcase.clickHistory (OperatorButtonsShowcase.clicks st vs)
             = OperatorButtonsShowcase.sliceLast 5
                 (OperatorButtonsShowcase.clickHistory st ++ vs)
             /\ OperatorButtonsShowcase.lastClicked (OperatorButtonsShowcase.clicks st vs)
                = match rev vs with
                  | [] => OperatorButtonsShowcase.lastClicked st
                  | value :: _ => Some value
                  end).
  { unfold OperatorButtonsShowcase.clicks.
    induction vs as [| v vs IH]; intros st Hlen; cbn [fold_left].
    - split; [| reflexivity]. rewrite app_nil_r.
      unfold OperatorButtonsShowcase.sliceLast.
      now replace (List.length (OperatorButtonsShowcase.clickHistory st) - 5) with 0 by lia.
    - destruct (IH (OperatorButtonsShowcase.handleButtonClick st v)) as (IH1 & IH2).
      { cbn [OperatorButtonsShowcase.handleButtonClick
               OperatorButtonsShowcase.clickHistory].
        rewrite sliceLast_length. lia. }
      split.
      + rewrite IH1. cbn [OperatorButtonsShowcase.handleButtonClick
                            OperatorButtonsShowcase.clickHistory].
        rewrite sliceLast_app, <- app_assoc. reflexivity.
      + rewrite IH2. cbn [rev OperatorButtonsShowcase.handleButtonClick
                            OperatorButtonsShowcase.lastClicked].
        destruct (rev vs) as [| x xs]; reflexivity. }
  intros st.
  destruct (H values OperatorButtonsShowcase.initial) as (H1 & H2); [cbn; lia |].
  fold st in H1, H2. cbn [OperatorButtonsShowcase.initial
                            OperatorButtonsShowcase.clickHistory
                            OperatorButtonsShowcase.lastClicked app] in H1, H2.
  split; [exact H1 | split; [| exact H2]].
  rewrite H1, sliceLast_length. lia.
Qed.

(** ** What a valid expression looks like *)

(** X16: an input that is not blank and that [isValidExpression] accepts
    tokenizes, has balanced parentheses (depth zero at the end, never
    negative) and begins with a phrase of the grammar; [evaluate] returns
    the value of the tree of that phrase. *)
Theorem valid_expression_shape (expression : string) :
  isBlank expression = false ->
  isValidExpression expression = Ok true ->
  exists ts phrase rest t,
    tokenize expression = Ok ts
    /\ depth ts = 0%Z /\ ~ goesNegative ts
    /\ ts = phrase ++ rest /\ Derives Additive phrase t
    /\ evaluate expression = rewrap (evaluateNode t).
Proof.
  intros Hblank Hvalid.
  destruct (tokenize expression) as [ts | m |] eqn:Htok.
  - assert (Hne : ts <> []).
    { intros ->. apply tokenize_empty in Htok. congruence. }
    rewrite (isValidExpression_tokens _ _ Htok Hne) in Hvalid.
    destruct (countParens ts 0) as [final |] eqn:Hcount; [| discriminate].
    pose proof (countParens_Some _ _ Hcount) as Hfinal. subst final.
    destruct (depth ts =? 0)%Z eqn:Hdepth; [| discriminate]. cbn [negb] in Hvalid.
    destruct (parse ts) as [t | m |] eqn:Hparse; try discriminate.
    pose proof (tokenize_loop_canonical _ _ _ _ _ (Forall_nil _) Htok) as Hcanon.
    pose proof Hparse as Hstart. unfold parse in Hstart.
    apply bind_Ok_inv in Hstart. destruct Hstart as ([ast c'] & Hstart & E).
    injection E as ->.
    destruct (parseAddSub_from_start ts t c' Hcanon Hstart)
      as (phrase & rest & Hsplit & _ & Hd).
    exists ts, phrase, rest, t. repeat split; try assumption.
    + now apply Z.eqb_eq.
    + intros Hneg. apply countParens_None in Hneg. congruence.
    + rewrite (evaluate_tokens _ _ Htok Hne), Hparse. reflexivity.
  - unfold isValidExpression in Hvalid. rewrite Hblank, Htok in Hvalid. discriminate.
  - now elim (tokenize_returns expression).
Qed.

Lemma valid_expression_shape_witness :
  exists ts phrase rest t,
    tokenize "2 (3)" = Ok ts
    /\ depth ts = 0%Z /\ ~ goesNegative ts
    /\ ts = phrase ++ rest /\ Derives Additive phrase t
    /\ evaluate "2 (3)" = rewrap (evaluateNode t).
Proof.
  apply valid_expression_shape; vm_compute; reflexivity.
Defined.

(** ** One decimal point *)

Section DecimalPoint.

Import CalculatorPage.

Lemma dots_append (a b : string) : dots (a ++ b)%string = dots a + dots b.
Proof. unfold dots. now rewrite codeUnits_append, filter_app, length_app. Qed.

Lemma dots_digit (c : ascii) : isDigit c = true -> dots (String c "") = 0.
Proof.
  intros Hc. unfold dots, codeUnits. cbn [list_ascii_of_string filter].
  destruct (char_classes c) as (_ & H & _).
  destruct (H Hc) as (_ & Hdot). rewrite Ascii.eqb_sym in Hdot. now rewrite Hdot.
Qed.

Lemma dots_includes (s : string) : includes s "." = false -> dots s = 0.
Proof.
  unfold includes, dots.
  induction (codeUnits s) as [| c cs IH]; cbn [existsb filter]; [reflexivity |].
  intros H. apply orb_false_elim in H. destruct H as (-> & H). now apply IH.
Qed.

Lemma filter_removelast_length {A : Type} (f : A -> bool) (l : list A) :
  List.length (filter f (removelast l)) <= List.length (filter f l).
Proof.
  induction l as [| x l IH]; [reflexivity |].
  destruct l as [| y l]; [cbn; destruct (f x); cbn; lia |].
  change (removelast (x :: y :: l)) with (x :: removelast (y :: l)).
  remember (y :: l) as l' eqn:El'.
  cbn [filter]. destruct (f x); cbn [List.length]; lia.
Qed.

Lemma dots_dropLast (s : string) : dots (dropLast s) <= dots s.
Proof.
  unfold dots, dropLast. rewrite codeUnits_of_list. apply filter_removelast_length.
Qed.

Lemma edit_key_keeps_dots (st st' : State) (value : string) :
  isEditKey value = true -> dots (expression st) <= 1 ->
  handleButtonClick st value = Ok st' -> dots (expression st') <= 1.
Proof.
  intros Hkey Hdots. unfold handleButtonClick.
  destruct (isSingleDigit value) eqn:Edig.
  { apply isSingleDigit_inv in Edig. destruct Edig as (c & -> & Hc).
    pose proof (dots_digit c Hc) as H0.
    destruct (isNewExpression st && String.eqb (expression st) "0");
      [| destruct (isNewExpression st)]; intros H; injection H as <-;
        cbn [expression setResult setIsNewExpression setExpression];
        rewrite ?dots_append; lia. }
  destruct (String.eqb value ".") eqn:Edot.
  { destruct (isNewExpression st);
      [| destruct (negb (includes (expression st) ".")) eqn:Einc];
      intros H; injection H as <-;
        cbn [expression setResult setIsNewExpression setExpression setError];
        [cbn; lia | | exact Hdots].
    apply negb_true_iff in Einc. rewrite dots_append, (dots_includes _ Einc). cbn. lia. }
  destruct (String.eqb value "clear") eqn:Eclear;
    [intros H; injection H as <-; cbn; lia |].
  destruct (String.eqb value "delete") eqn:Edel.
  { destruct (Nat.eqb (String.length (expression st)) 1);
      intros H; injection H as <-;
        cbn [expression setResult setIsNewExpression setExpression setError];
        [cbn; lia |].
    pose proof (dots_dropLast (expression st)). lia. }
  unfold isEditKey in Hkey. rewrite Edig in Hkey.
  repeat (apply orb_prop in Hkey; destruct Hkey as [Hkey | Hkey]); congruence.
Qed.

(** X17: a number typed with the digit, point, DEL and C keys on the page
    as it opens never has more than one decimal point: a second point is
    ignored. *)
Theorem at_most_one_decimal_point (values : list string) (st : State) :
  forallb isEditKey values = true ->
  clicks initial values = Ok st ->
  dots (expression st) <= 1.
Proof.
  assert (H : forall vs st0 st1,
             forallb isEditKey vs = true -> dots (expression st0) <= 1 ->
             clicks st0 vs = Ok st1 -> dots (expression st1) <= 1).
  { induction vs as [| v vs IH]; intros st0 st1 Hkeys Hdots; cbn [clicks].
    - intros E. now injection E as <-.
    - cbn [forallb] in Hkeys. apply andb_prop in Hkeys. destruct Hkeys as (Hv & Hvs).
      intros E. apply bind_Ok_inv in E. destruct E as (st' & Hclick & Hrest).
      apply (IH st' st1 Hvs); [| exact Hrest].
      exact (edit_key_keeps_dots _ _ _ Hv Hdots Hclick). }
  intros Hkeys Hrun. apply (H values initial st Hkeys); [cbn; lia | exact Hrun].
Qed.

Lemma at_most_one_decimal_point_witness :
  dots (expression {| expression := "1.5"; result := None; error := None;
                      isNewExpression := false |}) <= 1.
Proof.
  apply (at_most_one_decimal_point ["1"; "."; "."; "5"; "."]%string).
  - reflexivity.
  - vm_compute. reflexivity.
Defined.

End DecimalPoint.
